(** * HarfBuzz unified iterators (src/hb-iter.hh)

    A shallow embedding of the iterator protocol of [hb-iter.hh]: the
    base class [hb_iter_t], the fallback mixin, the adaptors
    [hb_map], [hb_filter], [hb_zip], [hb_enumerate], [hb_iota] and the
    consumers [hb_reduce], [hb_sink], [hb_all], [hb_any], [hb_none].

    Conventions.
    - A C++ [unsigned] is a [Z] in [0, 2^32); every arithmetic result is
      reduced with [wrap].
    - The curiously recurring template pattern becomes a type class:
      an instance of [hb_iter_t iter_t item_t] lists what [thiz()]
      resolves to for the iterator type [iter_t].
    - A loop that runs until an iterator is exhausted takes a [fuel]
      bound, one unit per iteration; it returns [None] when the bound is
      used up.  [None] is also the outcome of a call that produces no
      value at all (control leaving a value-returning function without a
      [return]). *)

From Stdlib Require Import ZArith List Bool Lia Arith.
Import ListNotations.

Local Open Scope Z_scope.

(** ** Machine integers *)

Definition UINT_MODULUS : Z := 2 ^ 32.

(** Reduction of an arithmetic result to the range of [unsigned]. *)
Definition wrap (x : Z) : Z := x mod UINT_MODULUS.

(** ** Helpers of hb-algs.hh *)

(** Modelled from the spec: [hb_get], [hb_has] and [hb_match] live in
    hb-algs.hh, which is not part of the sources at hand; the spec writes
    their use as [pred(proj(item))], so each one is function
    application. *)
Definition hb_get {A B : Type} (f : A -> B) (x : A) : B := f x.
Definition hb_has {B : Type} (p : B -> bool) (x : B) : bool := p x.
Definition hb_match {B : Type} (p : B -> bool) (x : B) : bool := p x.

(** Modelled from the spec: [hb_identity] of hb-algs.hh, the default
    projection ([proj=identity]). *)
Definition hb_identity {A : Type} (x : A) : A := x.

(** Modelled from the spec: [hb_min] of hb-algs.hh, the smaller of two
    lengths. *)
Definition hb_min (a b : Z) : Z := Z.min a b.

(** ** The iterator protocol: [hb_iter_t] *)

(** Defaults declared by the base class [hb_iter_t]; a subclass that
    does not redeclare a flag inherits it. *)
Definition hb_iter_t_is_random_access_iterator : bool := false.
Definition hb_iter_t_is_sorted_iterator : bool := false.

Class hb_iter_t (iter_t item_t : Type) : Type := {
  is_random_access_iterator : bool;
  is_sorted_iterator : bool;
  __item__ : iter_t -> item_t;
  __item_at__ : Z -> iter_t -> item_t;
  __more__ : iter_t -> bool;
  __len__ : nat -> iter_t -> option Z;
  __next__ : iter_t -> iter_t;
  __forward__ : Z -> iter_t -> iter_t;
  __prev__ : iter_t -> iter_t;
  __rewind__ : Z -> iter_t -> iter_t;
  __end__ : nat -> iter_t -> option iter_t
}.

Arguments is_random_access_iterator iter_t {item_t _}.
Arguments is_sorted_iterator iter_t {item_t _}.

(** [n] applications of a cursor operation, the body of
    [while (n--) op]. *)
Fixpoint repeat_op {A : Type} (op : A -> A) (n : nat) (x : A) : A :=
  match n with
  | O => x
  | S k => repeat_op op k (op x)
  end.

(** [runs_out more next it n]: the loop [while (more it) it = next it]
    leaves after exactly [n] rounds. *)
Inductive runs_out {A : Type} (more : A -> bool) (next : A -> A)
    : A -> nat -> Prop :=
| runs_out_now : forall it, more it = false -> runs_out more next it 0
| runs_out_later : forall it n,
    more it = true -> runs_out more next (next it) n ->
    runs_out more next it (S n).

(** [n] applications of [++it]. *)
Definition advance {iter_t item_t : Type} `{hb_iter_t iter_t item_t}
    (n : nat) (it : iter_t) : iter_t :=
  repeat_op __next__ n it.

(** [exhausts_in it n]: [it] has exactly [n] items left, that is
    [operator bool] holds at the first [n] positions reached by [++]
    and fails at the next one. *)
Definition exhausts_in {iter_t item_t : Type} `{hb_iter_t iter_t item_t}
    (it : iter_t) (n : nat) : Prop :=
  runs_out __more__ __next__ it n.

(** The items a forward traversal of [it] visits in its first [n]
    positions, in order. *)
Fixpoint items {iter_t item_t : Type} `{hb_iter_t iter_t item_t}
    (n : nat) (it : iter_t) : list item_t :=
  match n with
  | O => []
  | S k => __item__ it :: items k (__next__ it)
  end.

(** Counters of an instrumented traversal: how many times the loop
    evaluated [*it] and how many times it executed [++it]. *)
Record trace : Type := mk_trace { accesses : nat; advances : nat }.

Definition no_trace : trace := mk_trace 0 0.
Definition on_access (t : trace) : trace :=
  mk_trace (S (accesses t)) (advances t).
Definition on_advance (t : trace) : trace :=
  mk_trace (accesses t) (S (advances t)).

(** [operator !=] is not part of [hb_iter_t]: an iterator type that
    declares it can be used in a range-based [for], compared against
    [end()]. *)
Class hb_iter_ne (iter_t : Type) : Type := {
  ne : iter_t -> iter_t -> bool
}.

(** The loop [while (it) ++it;] shared by every [__end__] that walks to
    exhaustion.  Besides the final position it reports how many times
    [++it] ran. *)
Fixpoint run_to_end {A : Type} (more : A -> bool) (next : A -> A)
    (fuel : nat) (it : A) (steps : nat) : option (A * nat) :=
  match fuel with
  | O => None
  | S f =>
      if more it then run_to_end more next f (next it) (S steps)
      else Some (it, steps)
  end.

(** ** The fallback mixin: [hb_iter_fallback_mixin_t]

    Each derivation is written against what [thiz()] resolves to in the
    subclass. *)

(** A sequential iterator implements [__item__], [__more__], [__next__]
    (and [__prev__] when bidirectional); the mixin derives the rest. *)
Section fallback_sequential.
Context {iter_t item_t : Type}.
Variable thiz_item : iter_t -> item_t.
Variable thiz_more : iter_t -> bool.
Variable thiz_next : iter_t -> iter_t.
Variable thiz_prev : iter_t -> iter_t.

(** [{ iter_t c = *thiz(); unsigned l = 0; while (c) { c++; l++; }; return l; }] *)
Fixpoint fallback___len___loop (fuel : nat) (c : iter_t) (l : Z)
    : option Z :=
  match fuel with
  | O => None
  | S f =>
      if thiz_more c
      then fallback___len___loop f (thiz_next c) (wrap (l + 1))
      else Some l
  end.

Definition fallback___len__ (fuel : nat) (it : iter_t) : option Z :=
  fallback___len___loop fuel it 0.

(** [{ while (n--) ++*thiz(); }] *)
Definition fallback___forward__ (n : Z) (it : iter_t) : iter_t :=
  repeat_op thiz_next (Z.to_nat n) it.

(** [{ while (n--) --*thiz(); }] *)
Definition fallback___rewind__ (n : Z) (it : iter_t) : iter_t :=
  repeat_op thiz_prev (Z.to_nat n) it.

(** [{ auto c = *thiz() + i; return *c; }] *)
Definition fallback___item_at__ (i : Z) (it : iter_t) : item_t :=
  thiz_item (fallback___forward__ i it).
End fallback_sequential.

(** A random-access iterator implements [__item_at__], [__len__],
    [__forward__] and [__rewind__]; the mixin derives the rest. *)
Section fallback_random_access.
Context {iter_t item_t : Type}.
Variable thiz_item_at : Z -> iter_t -> item_t.
Variable thiz_len : iter_t -> Z.
Variable thiz_forward : Z -> iter_t -> iter_t.
Variable thiz_rewind : Z -> iter_t -> iter_t.

(** [{ return ( *thiz())[0]; }] *)
Definition fallback___item__ (it : iter_t) : item_t := thiz_item_at 0 it.

(** [{ return thiz()->len (); }], converted to [bool]. *)
Definition fallback___more__ (it : iter_t) : bool :=
  negb (thiz_len it =? 0).

(** [{ *thiz() += 1; }] *)
Definition fallback___next__ (it : iter_t) : iter_t := thiz_forward 1 it.

(** [{ *thiz() -= 1; }] *)
Definition fallback___prev__ (it : iter_t) : iter_t := thiz_rewind 1 it.
End fallback_random_access.

(** [__end__] of the mixin chooses by the subclass's
    [is_random_access_iterator]. *)
Section fallback_end.
Context {iter_t : Type}.
Variable thiz_is_random_access_iterator : bool.
Variable thiz_more : iter_t -> bool.
Variable thiz_len : nat -> iter_t -> option Z.
Variable thiz_next : iter_t -> iter_t.
Variable thiz_forward : Z -> iter_t -> iter_t.

Definition fallback___end__ (fuel : nat) (it : iter_t) : option iter_t :=
  if thiz_is_random_access_iterator then
    (* return *thiz() + thiz()->len (); *)
    option_map (fun l => thiz_forward l it) (thiz_len fuel it)
  else
    (* auto it = *thiz(); while (it) ++it; return it; *)
    option_map fst (run_to_end thiz_more thiz_next fuel it 0).
End fallback_end.

(** ** [hb_map]: [hb_map_iter_t] *)

Record hb_map_iter_t (Iter A B : Type) : Type := mk_map_iter {
  map_it : Iter;
  map_f : A -> B
}.
Arguments mk_map_iter {Iter A B} _ _.
Arguments map_it {Iter A B} _.
Arguments map_f {Iter A B} _.

(** [hb_map_iter_t] redeclares [is_random_access_iterator] only; the
    sorted flag is the one inherited from [hb_iter_t]. *)
#[export] Instance hb_map_iter {Iter A B : Type} `{hb_iter_t Iter A}
    : hb_iter_t (hb_map_iter_t Iter A B) B := {
  is_random_access_iterator := is_random_access_iterator Iter;
  is_sorted_iterator := hb_iter_t_is_sorted_iterator;
  __item__ m := hb_get (map_f m) (__item__ (map_it m));
  __item_at__ i m := hb_get (map_f m) (__item_at__ i (map_it m));
  __more__ m := __more__ (map_it m);
  __len__ fuel m := __len__ fuel (map_it m);
  __next__ m := mk_map_iter (__next__ (map_it m)) (map_f m);
  __forward__ n m := mk_map_iter (__forward__ n (map_it m)) (map_f m);
  __prev__ m := mk_map_iter (__prev__ (map_it m)) (map_f m);
  __rewind__ n m := mk_map_iter (__rewind__ n (map_it m)) (map_f m);
  __end__ fuel m :=
    option_map (fun e => mk_map_iter e (map_f m)) (__end__ fuel (map_it m))
}.

(** [hb_map (f)] applied to an iterator, as in [it | hb_map (f)]. *)
Definition hb_map {Iter A B : Type} (f : A -> B) (it : Iter)
    : hb_map_iter_t Iter A B :=
  mk_map_iter it f.

(** ** [hb_zip]: [hb_zip_iter_t] *)

Record hb_zip_iter_t (A B : Type) : Type := mk_zip_iter {
  zip_a : A;
  zip_b : B
}.
Arguments mk_zip_iter {A B} _ _.
Arguments zip_a {A B} _.
Arguments zip_b {A B} _.

#[export] Instance hb_zip_iter {A B TA TB : Type}
    `{hb_iter_t A TA} `{hb_iter_t B TB}
    : hb_iter_t (hb_zip_iter_t A B) (TA * TB) := {
  is_random_access_iterator :=
    is_random_access_iterator A && is_random_access_iterator B;
  is_sorted_iterator := is_sorted_iterator A && is_sorted_iterator B;
  __item__ z := (__item__ (zip_a z), __item__ (zip_b z));
  __item_at__ i z := (__item_at__ i (zip_a z), __item_at__ i (zip_b z));
  __more__ z := __more__ (zip_a z) && __more__ (zip_b z);
  __len__ fuel z :=
    match __len__ fuel (zip_a z), __len__ fuel (zip_b z) with
    | Some la, Some lb => Some (hb_min la lb)
    | _, _ => None
    end;
  __next__ z := mk_zip_iter (__next__ (zip_a z)) (__next__ (zip_b z));
  __forward__ n z :=
    mk_zip_iter (__forward__ n (zip_a z)) (__forward__ n (zip_b z));
  __prev__ z := mk_zip_iter (__prev__ (zip_a z)) (__prev__ (zip_b z));
  __rewind__ n z :=
    mk_zip_iter (__rewind__ n (zip_a z)) (__rewind__ n (zip_b z));
  __end__ fuel z :=
    match __end__ fuel (zip_a z), __end__ fuel (zip_b z) with
    | Some ea, Some eb => Some (mk_zip_iter ea eb)
    | _, _ => None
    end
}.

(** [{ return a != o.a || b != o.b; }] *)
#[export] Instance hb_zip_iter_ne {A B : Type}
    `{hb_iter_ne A} `{hb_iter_ne B} : hb_iter_ne (hb_zip_iter_t A B) := {
  ne z o := ne (zip_a z) (zip_a o) || ne (zip_b z) (zip_b o)
}.

Definition hb_zip {A B : Type} (a : A) (b : B) : hb_zip_iter_t A B :=
  mk_zip_iter a b.

(** ** [hb_enumerate]: [hb_enumerate_iter_t] *)

Record hb_enumerate_iter_t (Iter : Type) : Type := mk_enumerate_iter {
  enum_i : Z;
  enum_it : Iter
}.
Arguments mk_enumerate_iter {Iter} _ _.
Arguments enum_i {Iter} _.
Arguments enum_it {Iter} _.

Section hb_enumerate_iter_t.
Context {Iter T : Type} `{hb_iter_t Iter T}.

Definition enumerate___more__ (e : hb_enumerate_iter_t Iter) : bool :=
  __more__ (enum_it e).

Definition enumerate___len__ (fuel : nat) (e : hb_enumerate_iter_t Iter)
    : option Z :=
  __len__ fuel (enum_it e).

(** [{ ++i; ++it; }] *)
Definition enumerate___next__ (e : hb_enumerate_iter_t Iter)
    : hb_enumerate_iter_t Iter :=
  mk_enumerate_iter (wrap (enum_i e + 1)) (__next__ (enum_it e)).

(** [{ i += n; it += n; }] *)
Definition enumerate___forward__ (n : Z) (e : hb_enumerate_iter_t Iter)
    : hb_enumerate_iter_t Iter :=
  mk_enumerate_iter (wrap (enum_i e + n)) (__forward__ n (enum_it e)).

(** [__end__]: the same two branches as the mixin, on the enumerate
    iterator's own operations. *)
Definition enumerate___end__ (fuel : nat) (e : hb_enumerate_iter_t Iter)
    : option (hb_enumerate_iter_t Iter) :=
  if is_random_access_iterator Iter then
    (* return *this + this->len (); *)
    option_map (fun l => enumerate___forward__ l e) (enumerate___len__ fuel e)
  else
    (* auto it = *this; while (it) ++it; return it; *)
    option_map fst (run_to_end enumerate___more__ enumerate___next__ fuel e 0).

#[export] Instance hb_enumerate_iter
    : hb_iter_t (hb_enumerate_iter_t Iter) (Z * T) := {
  is_random_access_iterator := is_random_access_iterator Iter;
  is_sorted_iterator := true;
  __item__ e := (enum_i e, __item__ (enum_it e));
  __item_at__ j e := (wrap (enum_i e + j), __item_at__ j (enum_it e));
  __more__ := enumerate___more__;
  __len__ := enumerate___len__;
  __next__ := enumerate___next__;
  __forward__ := enumerate___forward__;
  __prev__ e := mk_enumerate_iter (wrap (enum_i e - 1)) (__prev__ (enum_it e));
  __rewind__ n e :=
    mk_enumerate_iter (wrap (enum_i e - n)) (__rewind__ n (enum_it e));
  __end__ := enumerate___end__
}.

(** [{ return i != o.i || it != o.it; }] *)
#[export] Instance hb_enumerate_iter_ne `{hb_iter_ne Iter}
    : hb_iter_ne (hb_enumerate_iter_t Iter) := {
  ne e o := negb (enum_i e =? enum_i o) || ne (enum_it e) (enum_it o)
}.

(** The constructor starts the index at zero. *)
Definition hb_enumerate (it : Iter) : hb_enumerate_iter_t Iter :=
  mk_enumerate_iter 0 it.
End hb_enumerate_iter_t.

(** ** [hb_iota]: [hb_iota_iter_t<T, S>]

    [T] and [S] are deduced from the arguments of [hb_iota].  Two
    instantiations are embedded: [<unsigned, unsigned>] here (unsigned
    arguments, and [hb_iota ()] with none) and [<int, int>] below
    (plain integer literals, negative values included).

    [end_for] and [__len__] divide by [step]; a zero [step] is a division
    by zero in the source, so every statement about iota assumes
    [0 < step]. *)

Record hb_iota_iter_t : Type := mk_iota_iter {
  iota_v : Z;
  iota_end : Z;
  iota_step : Z
}.

(** [{ auto res = (end - start) % step; if (!res) return end;
       end += step - res; return end; }] *)
Definition end_for (start end_ step : Z) : Z :=
  let res := wrap (end_ - start) mod step in
  if res =? 0 then end_
  else wrap (end_ + wrap (step - res)).

(** The constructor [hb_iota_iter_t (start, end, step)]. *)
Definition new_hb_iota_iter_t (start end_ step : Z) : hb_iota_iter_t :=
  mk_iota_iter start (end_for start end_ step) step.

Definition iota___item__ (it : hb_iota_iter_t) : Z := iota_v it.

(** [{ return v + j * step; }] *)
Definition iota___item_at__ (j : Z) (it : hb_iota_iter_t) : Z :=
  wrap (iota_v it + wrap (j * iota_step it)).

(** [{ return v != end; }] *)
Definition iota___more__ (it : hb_iota_iter_t) : bool :=
  negb (iota_v it =? iota_end it).

(** [{ return (end - v) / step; }] *)
Definition iota___len__ (it : hb_iota_iter_t) : Z :=
  wrap (iota_end it - iota_v it) / iota_step it.

(** [{ v += step; }] *)
Definition iota___next__ (it : hb_iota_iter_t) : hb_iota_iter_t :=
  mk_iota_iter (wrap (iota_v it + iota_step it)) (iota_end it) (iota_step it).

(** [{ v += n * step; }] *)
Definition iota___forward__ (n : Z) (it : hb_iota_iter_t) : hb_iota_iter_t :=
  mk_iota_iter (wrap (iota_v it + wrap (n * iota_step it)))
               (iota_end it) (iota_step it).

(** [{ v -= step; }] *)
Definition iota___prev__ (it : hb_iota_iter_t) : hb_iota_iter_t :=
  mk_iota_iter (wrap (iota_v it - iota_step it)) (iota_end it) (iota_step it).

(** [{ v -= n * step; }] *)
Definition iota___rewind__ (n : Z) (it : hb_iota_iter_t) : hb_iota_iter_t :=
  mk_iota_iter (wrap (iota_v it - wrap (n * iota_step it)))
               (iota_end it) (iota_step it).

(** [hb_iota_iter_t __end__ () const { hb_iota_iter_t (end, end, step); }]:
    the body builds the end iterator as a temporary and has no [return]
    statement, so the call produces no value. *)
Definition iota___end__ (fuel : nat) (it : hb_iota_iter_t)
    : option hb_iota_iter_t :=
  let _ := new_hb_iota_iter_t (iota_end it) (iota_end it) (iota_step it) in
  None.

#[export] Instance hb_iota_iter : hb_iter_t hb_iota_iter_t Z := {
  is_random_access_iterator := true;
  is_sorted_iterator := true;
  __item__ := iota___item__;
  __item_at__ := iota___item_at__;
  __more__ := iota___more__;
  __len__ _ it := Some (iota___len__ it);
  __next__ := iota___next__;
  __forward__ := iota___forward__;
  __prev__ := iota___prev__;
  __rewind__ := iota___rewind__;
  __end__ := iota___end__
}.

(** [{ return v != o.v || end != o.end || step != o.step; }] *)
#[export] Instance hb_iota_iter_ne : hb_iter_ne hb_iota_iter_t := {
  ne it o :=
    negb (iota_v it =? iota_v o) || negb (iota_end it =? iota_end o)
    || negb (iota_step it =? iota_step o)
}.

(** [hb_iota (start, end, step)]. *)
Definition hb_iota (start end_ step : Z) : hb_iota_iter_t :=
  new_hb_iota_iter_t start end_ step.

(** ** [hb_iota] at [<int, int>]

    An [int] is a [Z] in [[-2^31, 2^31)].  Signed overflow is undefined
    in C++; the model reduces the result of a signed operation with
    [to_int] (two's complement), and the statements about this
    instantiation assume ranges in which no signed operation overflows.
    Where an operand is [unsigned] the usual arithmetic conversions make
    the operation unsigned, which is reduced with [wrap] and converted
    back with [to_int]. *)

Definition INT_MIN : Z := - 2 ^ 31.
Definition INT_MAX : Z := 2 ^ 31 - 1.

(** Conversion of a value to [int]. *)
Definition to_int (x : Z) : Z := (x + 2 ^ 31) mod UINT_MODULUS - 2 ^ 31.

Record hb_iota_int_iter_t : Type := mk_iota_int_iter {
  iota_int_v : Z;
  iota_int_end : Z;
  iota_int_step : Z
}.

(** [end_for] with [%] on [int], which truncates towards zero. *)
Definition end_for_int (start end_ step : Z) : Z :=
  let res := Z.rem (to_int (end_ - start)) step in
  if res =? 0 then end_
  else to_int (end_ + to_int (step - res)).

Definition new_hb_iota_int_iter_t (start end_ step : Z)
    : hb_iota_int_iter_t :=
  mk_iota_int_iter start (end_for_int start end_ step) step.

Definition iota_int___item__ (it : hb_iota_int_iter_t) : Z := iota_int_v it.

(** [{ return v + j * step; }] with [j] unsigned. *)
Definition iota_int___item_at__ (j : Z) (it : hb_iota_int_iter_t) : Z :=
  to_int (wrap (iota_int_v it + wrap (j * iota_int_step it))).

Definition iota_int___more__ (it : hb_iota_int_iter_t) : bool :=
  negb (iota_int_v it =? iota_int_end it).

(** [{ return (end - v) / step; }]: division on [int], which truncates
    towards zero, converted to the [unsigned] return type. *)
Definition iota_int___len__ (it : hb_iota_int_iter_t) : Z :=
  wrap (Z.quot (to_int (iota_int_end it - iota_int_v it)) (iota_int_step it)).

Definition iota_int___next__ (it : hb_iota_int_iter_t)
    : hb_iota_int_iter_t :=
  mk_iota_int_iter (to_int (iota_int_v it + iota_int_step it))
                   (iota_int_end it) (iota_int_step it).

(** [{ v += n * step; }] with [n] unsigned. *)
Definition iota_int___forward__ (n : Z) (it : hb_iota_int_iter_t)
    : hb_iota_int_iter_t :=
  mk_iota_int_iter
    (to_int (wrap (iota_int_v it + wrap (n * iota_int_step it))))
    (iota_int_end it) (iota_int_step it).

Definition iota_int___prev__ (it : hb_iota_int_iter_t)
    : hb_iota_int_iter_t :=
  mk_iota_int_iter (to_int (iota_int_v it - iota_int_step it))
                   (iota_int_end it) (iota_int_step it).

(** [{ v -= n * step; }] with [n] unsigned. *)
Definition iota_int___rewind__ (n : Z) (it : hb_iota_int_iter_t)
    : hb_iota_int_iter_t :=
  mk_iota_int_iter
    (to_int (wrap (iota_int_v it - wrap (n * iota_int_step it))))
    (iota_int_end it) (iota_int_step it).

(** The same [__end__] without a [return] statement. *)
Definition iota_int___end__ (fuel : nat) (it : hb_iota_int_iter_t)
    : option hb_iota_int_iter_t :=
  let _ := new_hb_iota_int_iter_t (iota_int_end it) (iota_int_end it)
             (iota_int_step it) in
  None.

#[export] Instance hb_iota_int_iter : hb_iter_t hb_iota_int_iter_t Z := {
  is_random_access_iterator := true;
  is_sorted_iterator := true;
  __item__ := iota_int___item__;
  __item_at__ := iota_int___item_at__;
  __more__ := iota_int___more__;
  __len__ _ it := Some (iota_int___len__ it);
  __next__ := iota_int___next__;
  __forward__ := iota_int___forward__;
  __prev__ := iota_int___prev__;
  __rewind__ := iota_int___rewind__;
  __end__ := iota_int___end__
}.

(** [hb_iota (start, end, step)] with [int] arguments. *)
Definition hb_iota_int (start end_ step : Z) : hb_iota_int_iter_t :=
  new_hb_iota_int_iter_t start end_ step.

(** ** Positions of [end()]

    [plus_len] is the expression [*it + it.len ()], the current position
    advanced by [len()]. *)
Definition plus_len {iter_t item_t : Type} `{hb_iter_t iter_t item_t}
    (fuel : nat) (it : iter_t) : option iter_t :=
  option_map (fun l => __forward__ l it) (__len__ fuel it).

(** Random access agrees with stepping on a sequence with [n] items
    left: [len()] is [n], and [+= k] lands where [k] increments do for
    every [k] up to [n]. *)
Definition random_access_coherent {iter_t item_t : Type}
    `{hb_iter_t iter_t item_t} (fuel : nat) (it : iter_t) (n : nat) : Prop :=
  __len__ fuel it = Some (Z.of_nat n)
  /\ forall k, (k <= n)%nat -> __forward__ (Z.of_nat k) it = advance k it.

(** ** [hb_filter]: [hb_filter_iter_t]

    The constructor and [__next__] loop over the wrapped iterator until a
    matching item or exhaustion, so both take fuel. *)

Record hb_filter_iter_t (Iter A B : Type) : Type := mk_filter_iter {
  filter_it : Iter;
  filter_p : B -> bool;
  filter_f : A -> B
}.
Arguments mk_filter_iter {Iter A B} _ _ _.
Arguments filter_it {Iter A B} _.
Arguments filter_p {Iter A B} _.
Arguments filter_f {Iter A B} _.

Section hb_filter_iter_t.
Context {Iter A B : Type} `{hb_iter_t Iter A}.

(** [while (it && !hb_has (p.get (), hb_get (f.get (), *it))) ++it;] *)
Fixpoint filter_skip (fuel : nat) (p : B -> bool) (f : A -> B) (it : Iter)
    : option Iter :=
  match fuel with
  | O => None
  | S k =>
      if __more__ it && negb (hb_has p (hb_get f (__item__ it)))
      then filter_skip k p f (__next__ it)
      else Some it
  end.

(** The constructor [hb_filter_iter_t (it_, p_, f_)]. *)
Definition new_hb_filter_iter_t (fuel : nat) (it : Iter)
    (p : B -> bool) (f : A -> B) : option (hb_filter_iter_t Iter A B) :=
  option_map (fun it' => mk_filter_iter it' p f) (filter_skip fuel p f it).

Definition filter_is_sorted_iterator : bool := is_sorted_iterator Iter.

(** Not redeclared by [hb_filter_iter_t]: inherited from [hb_iter_t]. *)
Definition filter_is_random_access_iterator : bool :=
  hb_iter_t_is_random_access_iterator.

(** [{ return *it; }] *)
Definition filter___item__ (flt : hb_filter_iter_t Iter A B) : A :=
  __item__ (filter_it flt).

(** [{ return bool (it); }] *)
Definition filter___more__ (flt : hb_filter_iter_t Iter A B) : bool :=
  __more__ (filter_it flt).

(** [{ do ++it; while (it && !hb_has (p.get (), hb_get (f.get (), *it))); }] *)
Definition filter___next__ (fuel : nat) (flt : hb_filter_iter_t Iter A B)
    : option (hb_filter_iter_t Iter A B) :=
  option_map (fun it' => mk_filter_iter it' (filter_p flt) (filter_f flt))
    (filter_skip fuel (filter_p flt) (filter_f flt)
       (__next__ (filter_it flt))).

(** [{ --it; }] *)
Definition filter___prev__ (flt : hb_filter_iter_t Iter A B)
    : hb_filter_iter_t Iter A B :=
  mk_filter_iter (__prev__ (filter_it flt)) (filter_p flt) (filter_f flt).

(** [{ return hb_filter_iter_t (it.end (), p, f); }] *)
Definition filter___end__ (fuel : nat) (flt : hb_filter_iter_t Iter A B)
    : option (hb_filter_iter_t Iter A B) :=
  match __end__ fuel (filter_it flt) with
  | Some e => new_hb_filter_iter_t fuel e (filter_p flt) (filter_f flt)
  | None => None
  end.

(** [hb_filter (p, f)] applied to an iterator. *)
Definition hb_filter (fuel : nat) (p : B -> bool) (f : A -> B) (it : Iter)
    : option (hb_filter_iter_t Iter A B) :=
  new_hb_filter_iter_t fuel it p f.
End hb_filter_iter_t.

(** ** Consumers

    Each one is the loop [for (; it; ++it) ...] of the source.  The
    [_run] form threads a [trace] through the loop; the plain form
    forgets it. *)

Section consumers.
Context {Iter T : Type} `{hb_iter_t Iter T}.

(** [hb_reduce_t::operator ()]:
    [{ AccuT value = init_value; for (; it; ++it) value = r (value, *it);
       return value; }] *)
Fixpoint hb_reduce_run {AccuT : Type} (fuel : nat)
    (r : AccuT -> T -> AccuT) (value : AccuT) (it : Iter) (t : trace)
    : option (AccuT * trace) :=
  match fuel with
  | O => None
  | S k =>
      if __more__ it
      then hb_reduce_run k r (r value (__item__ it)) (__next__ it)
             (on_advance (on_access t))
      else Some (value, t)
  end.

Definition hb_reduce {AccuT : Type} (fuel : nat)
    (r : AccuT -> T -> AccuT) (init_value : AccuT) (it : Iter)
    : option AccuT :=
  option_map fst (hb_reduce_run fuel r init_value it no_trace).

(** [hb_sink_t::operator ()]: [{ for (; it; ++it) s << *it; }], the sink
    being a list that [<<] extends at its end. *)
Fixpoint hb_sink (fuel : nat) (s : list T) (it : Iter) : option (list T) :=
  match fuel with
  | O => None
  | S k =>
      if __more__ it
      then hb_sink k (s ++ [__item__ it]) (__next__ it)
      else Some s
  end.

(** [hb_all]:
    [{ for (auto it = hb_iter (c); it; ++it)
         if (!hb_match (p, hb_get (f, *it))) return false;
       return true; }] *)
Fixpoint hb_all_run {B : Type} (fuel : nat) (p : B -> bool) (f : T -> B)
    (it : Iter) (t : trace) : option (bool * trace) :=
  match fuel with
  | O => None
  | S k =>
      if __more__ it then
        if negb (hb_match p (hb_get f (__item__ it)))
        then Some (false, on_access t)
        else hb_all_run k p f (__next__ it) (on_advance (on_access t))
      else Some (true, t)
  end.

(** [hb_any]:
    [{ for (auto it = hb_iter (c); it; ++it)
         if (hb_match (p, hb_get (f, *it))) return true;
       return false; }] *)
Fixpoint hb_any_run {B : Type} (fuel : nat) (p : B -> bool) (f : T -> B)
    (it : Iter) (t : trace) : option (bool * trace) :=
  match fuel with
  | O => None
  | S k =>
      if __more__ it then
        if hb_match p (hb_get f (__item__ it))
        then Some (true, on_access t)
        else hb_any_run k p f (__next__ it) (on_advance (on_access t))
      else Some (false, t)
  end.

(** [hb_none]:
    [{ for (auto it = hb_iter (c); it; ++it)
         if (hb_match (p, hb_get (f, *it))) return false;
       return true; }] *)
Fixpoint hb_none_run {B : Type} (fuel : nat) (p : B -> bool) (f : T -> B)
    (it : Iter) (t : trace) : option (bool * trace) :=
  match fuel with
  | O => None
  | S k =>
      if __more__ it then
        if hb_match p (hb_get f (__item__ it))
        then Some (false, on_access t)
        else hb_none_run k p f (__next__ it) (on_advance (on_access t))
      else Some (true, t)
  end.

Definition hb_all {B : Type} (fuel : nat) (p : B -> bool) (f : T -> B)
    (it : Iter) : option bool :=
  option_map fst (hb_all_run fuel p f it no_trace).

Definition hb_any {B : Type} (fuel : nat) (p : B -> bool) (f : T -> B)
    (it : Iter) : option bool :=
  option_map fst (hb_any_run fuel p f it no_trace).

Definition hb_none {B : Type} (fuel : nat) (p : B -> bool) (f : T -> B)
    (it : Iter) : option bool :=
  option_map fst (hb_none_run fuel p f it no_trace).
End consumers.

(** [hb_unzip_t::operator ()]:
    [{ for (; it; ++it) { const auto &v = *it; s1 << v.first;
       s2 << v.second; } }], the two sinks being lists. *)
Fixpoint hb_unzip {Iter T1 T2 : Type} `{hb_iter_t Iter (T1 * T2)}
    (fuel : nat) (s1 : list T1) (s2 : list T2) (it : Iter)
    : option (list T1 * list T2) :=
  match fuel with
  | O => None
  | S k =>
      if __more__ it then
        let v := __item__ it in
        hb_unzip k (s1 ++ [fst v]) (s2 ++ [snd v]) (__next__ it)
      else Some (s1, s2)
  end.

(** [hb_copy]: [{ hb_iter (is) | hb_sink (id); }] *)
Definition hb_copy {Iter T : Type} `{hb_iter_t Iter T}
    (fuel : nat) (is_ : Iter) (id : list T) : option (list T) :=
  hb_sink fuel id is_.

(** [hb_sink_t::operator ()] on a filter iterator: the loop
    [for (; it; ++it) s << *it;] over the filter's own [operator bool],
    [*] and [++].  One unit of fuel pays for one round of the loop and
    the rest is handed to the [++] of that round. *)
Fixpoint hb_sink_filter {Iter A B : Type} `{hb_iter_t Iter A}
    (fuel : nat) (s : list A) (flt : hb_filter_iter_t Iter A B)
    : option (list A) :=
  match fuel with
  | O => None
  | S k =>
      if filter___more__ flt then
        match filter___next__ k flt with
        | Some flt' => hb_sink_filter k (s ++ [filter___item__ flt]) flt'
        | None => None
        end
      else Some s
  end.

(** The spec's [negate(p)]. *)
Definition negate {B : Type} (p : B -> bool) (x : B) : bool := negb (p x).

(** ** Sequences used as concrete inputs *)

(** An unbounded sequence: the naturals from a start value, never
    exhausted.  It implements the sequential subset and takes the rest
    from the fallback mixin. *)
Record counter_iter_t : Type := mk_counter { counter_v : Z }.

Definition counter___next__ (c : counter_iter_t) : counter_iter_t :=
  mk_counter (wrap (counter_v c + 1)).
Definition counter___prev__ (c : counter_iter_t) : counter_iter_t :=
  mk_counter (wrap (counter_v c - 1)).

#[export] Instance counter_iter : hb_iter_t counter_iter_t Z := {
  is_random_access_iterator := hb_iter_t_is_random_access_iterator;
  is_sorted_iterator := hb_iter_t_is_sorted_iterator;
  __item__ := counter_v;
  __item_at__ := fallback___item_at__ counter_v counter___next__;
  __more__ _ := true;
  __len__ := fallback___len__ (fun _ => true) counter___next__;
  __next__ := counter___next__;
  __forward__ := fallback___forward__ counter___next__;
  __prev__ := counter___prev__;
  __rewind__ := fallback___rewind__ counter___prev__;
  __end__ :=
    fallback___end__ hb_iter_t_is_random_access_iterator (fun _ => true)
      (fallback___len__ (fun _ => true) counter___next__)
      counter___next__ (fallback___forward__ counter___next__)
}.

(** A finite bidirectional sequence that is not random access: a cursor
    over a list, with the items already passed kept for [--].  It
    implements [__item__], [__more__], [__next__], [__prev__] and takes
    the rest from the fallback mixin.  Dereferencing it when exhausted
    yields 0. *)
Record list_iter_t : Type := mk_list_iter {
  list_seen : list Z;
  list_rest : list Z
}.

Definition list___item__ (c : list_iter_t) : Z := hd 0 (list_rest c).
Definition list___more__ (c : list_iter_t) : bool :=
  match list_rest c with [] => false | _ :: _ => true end.
Definition list___next__ (c : list_iter_t) : list_iter_t :=
  match list_rest c with
  | [] => c
  | x :: r => mk_list_iter (x :: list_seen c) r
  end.
Definition list___prev__ (c : list_iter_t) : list_iter_t :=
  match list_seen c with
  | [] => c
  | x :: s => mk_list_iter s (x :: list_rest c)
  end.

#[export] Instance list_iter : hb_iter_t list_iter_t Z := {
  is_random_access_iterator := hb_iter_t_is_random_access_iterator;
  is_sorted_iterator := hb_iter_t_is_sorted_iterator;
  __item__ := list___item__;
  __item_at__ := fallback___item_at__ list___item__ list___next__;
  __more__ := list___more__;
  __len__ := fallback___len__ list___more__ list___next__;
  __next__ := list___next__;
  __forward__ := fallback___forward__ list___next__;
  __prev__ := list___prev__;
  __rewind__ := fallback___rewind__ list___prev__;
  __end__ :=
    fallback___end__ hb_iter_t_is_random_access_iterator list___more__
      (fallback___len__ list___more__ list___next__)
      list___next__ (fallback___forward__ list___next__)
}.

(** Cursors over the same list differ when they stand at different
    positions. *)
#[export] Instance list_iter_ne : hb_iter_ne list_iter_t := {
  ne c o := negb (Nat.eqb (length (list_rest c)) (length (list_rest o)))
}.

Definition list_iter_of (l : list Z) : list_iter_t := mk_list_iter [] l.

(** A finite random-access sequence: a position in an array.  It
    implements [__item_at__], [__len__], [__forward__], [__rewind__] and
    takes the rest, [__end__] included, from the fallback mixin.
    Advancing stops at the end of the array, rewinding at its start;
    reading outside the array yields 0. *)
Record array_iter_t : Type := mk_array_iter {
  array_items : list Z;
  array_pos : nat
}.

Definition array___item_at__ (i : Z) (c : array_iter_t) : Z :=
  nth (array_pos c + Z.to_nat i) (array_items c) 0.
Definition array___len__ (c : array_iter_t) : Z :=
  Z.of_nat (length (array_items c) - array_pos c).
Definition array___forward__ (n : Z) (c : array_iter_t) : array_iter_t :=
  mk_array_iter (array_items c)
    (Nat.min (array_pos c + Z.to_nat n) (length (array_items c))).
Definition array___rewind__ (n : Z) (c : array_iter_t) : array_iter_t :=
  mk_array_iter (array_items c) (array_pos c - Z.to_nat n).

#[export] Instance array_iter : hb_iter_t array_iter_t Z := {
  is_random_access_iterator := true;
  is_sorted_iterator := hb_iter_t_is_sorted_iterator;
  __item__ := fallback___item__ array___item_at__;
  __item_at__ := array___item_at__;
  __more__ := fallback___more__ array___len__;
  __len__ _ c := Some (array___len__ c);
  __next__ := fallback___next__ array___forward__;
  __forward__ := array___forward__;
  __prev__ := fallback___prev__ array___rewind__;
  __rewind__ := array___rewind__;
  __end__ :=
    fallback___end__ true (fallback___more__ array___len__)
      (fun _ c => Some (array___len__ c))
      (fallback___next__ array___forward__) array___forward__
}.

Definition array_iter_of (l : list Z) : array_iter_t := mk_array_iter l 0.

(** * Properties *)

(** One round of a fuelled loop whose fuel is known to be positive. *)
Ltac one_round fuel := destruct fuel as [|fuel]; [lia | simpl].

(** ** Loops that run to exhaustion *)

Section runs_out_facts.
Context {A : Type}.
Variable more : A -> bool.
Variable next : A -> A.

Lemma repeat_op_succ_r (op : A -> A) (n : nat) (x : A) :
  repeat_op op (S n) x = op (repeat_op op n x).
Proof.
  revert x; induction n as [|n IH]; intro x; [reflexivity|].
  change (repeat_op op (S (S n)) x) with (repeat_op op (S n) (op x)).
  now rewrite IH.
Qed.

Lemma runs_out_exhausted (it : A) (n : nat) :
  runs_out more next it n -> more (repeat_op next n it) = false.
Proof.
  induction 1; simpl; assumption.
Qed.

Lemma runs_out_more (it : A) (n : nat) :
  runs_out more next it n ->
  forall k, (k < n)%nat -> more (repeat_op next k it) = true.
Proof.
  induction 1 as [it Hm | it n Hm Hn IH]; intros k Hk.
  - lia.
  - destruct k as [|k]; simpl; [assumption | apply IH; lia].
Qed.

Lemma runs_out_intro (n : nat) :
  forall it,
    (forall k, (k < n)%nat -> more (repeat_op next k it) = true) ->
    more (repeat_op next n it) = false ->
    runs_out more next it n.
Proof.
  induction n as [|n IH]; intros it Hlt Hn.
  - now constructor.
  - constructor.
    + apply (Hlt 0%nat); lia.
    + apply IH; [|exact Hn].
      intros k Hk. apply (Hlt (S k)); lia.
Qed.

(** With more fuel than rounds, the loop of [__end__] stops at the
    exhausted position, having run [++] once per remaining item. *)
Lemma run_to_end_runs_out (it : A) (n : nat) :
  runs_out more next it n ->
  forall fuel steps, (n < fuel)%nat ->
    run_to_end more next fuel it steps
    = Some (repeat_op next n it, (steps + n)%nat).
Proof.
  induction 1 as [it Hm | it n Hm Hn IH]; intros fuel steps Hf;
    one_round fuel; rewrite Hm.
  - now rewrite Nat.add_0_r.
  - rewrite IH by lia. do 2 f_equal. lia.
Qed.

(** Without enough fuel the loop gives no answer, never a wrong one. *)
Lemma run_to_end_sound (fuel : nat) :
  forall it steps e c,
    run_to_end more next fuel it steps = Some (e, c) ->
    exists n, runs_out more next it n /\ e = repeat_op next n it
              /\ c = (steps + n)%nat.
Proof.
  induction fuel as [|fuel IH]; intros it steps e c; simpl; [discriminate|].
  destruct (more it) eqn:Hm.
  - intros Hr. destruct (IH _ _ _ _ Hr) as (n & Hn & He & Hc).
    exists (S n). repeat split; [now constructor | exact He | lia].
  - intros [= <- <-]. exists 0%nat.
    repeat split; [now constructor | lia].
Qed.
End runs_out_facts.

(** ** [end()] *)


(** The [__end__] of [hb_iota_iter_t] has no [return] statement: whatever
    the iterator, the call yields no value. *)
Lemma iota_end_returns_nothing (fuel : nat) (it : hb_iota_iter_t) :
  __end__ fuel it = None.
Proof. reflexivity. Qed.

(** ** Traversals as lists *)

Section traversal_facts.
Context {Iter T : Type} `{hb_iter_t Iter T}.

Lemma items_nth (n : nat) :
  forall it : Iter,
    items n it = map (fun k => __item__ (advance k it)) (seq 0 n).
Proof.
  induction n as [|n IH]; intro it; [reflexivity|].
  simpl. f_equal. rewrite IH, <- seq_shift, map_map. reflexivity.
Qed.

(** [hb_sink] appends the remaining items, in order, to the sink. *)
Lemma hb_sink_items (it : Iter) (n : nat) :
  exhausts_in it n ->
  forall fuel s, (n < fuel)%nat -> hb_sink fuel s it = Some (s ++ items n it).
Proof.
  unfold exhausts_in.
  induction 1 as [it Hm | it n Hm Hn IH]; intros fuel s Hf;
    one_round fuel; rewrite Hm.
  - now rewrite app_nil_r.
  - rewrite IH by lia. now rewrite <- app_assoc.
Qed.
End traversal_facts.

(** ** [hb_iota] *)

Lemma wrap_small (x : Z) : 0 <= x < UINT_MODULUS -> wrap x = x.
Proof. intros; apply Z.mod_small; assumption. Qed.

Lemma opp_mod_step (d step : Z) :
  0 < step ->
  (- d) mod step = if d mod step =? 0 then 0 else step - d mod step.
Proof.
  intros Hs. destruct (d mod step =? 0) eqn:E.
  - apply Z.eqb_eq in E. apply Z.mod_opp_l_z; lia.
  - apply Z.eqb_neq in E. apply Z.mod_opp_l_nz; lia.
Qed.

Section iota_in_range.
Variables start end_ step : Z.
Hypothesis start_le_end : 0 <= start <= end_.
Hypothesis end_in_range : end_ < UINT_MODULUS.
Hypothesis step_pos : 0 < step.
Hypothesis bound_in_range : end_ + (start - end_) mod step < UINT_MODULUS.

(** The bound the code is meant to reach: the least [e >= end_] with
    [e - start] a multiple of [step]. *)
Let e : Z := end_ + (start - end_) mod step.
Let n : Z := (e - start) / step.

Lemma iota_slack : 0 <= (start - end_) mod step < step.
Proof. apply Z.mod_pos_bound; exact step_pos. Qed.

Lemma end_for_normalizes : end_for start end_ step = e.
Proof.
  pose proof iota_slack as Hslack.
  unfold end_for, e in *.
  rewrite (wrap_small (end_ - start)) by lia.
  replace (start - end_) with (- (end_ - start)) in * by lia.
  rewrite opp_mod_step in * by lia.
  destruct ((end_ - start) mod step =? 0) eqn:E; [lia|].
  rewrite (wrap_small (step - _)) by lia.
  rewrite wrap_small by lia. lia.
Qed.

Lemma iota_bound_multiple : e - start = n * step /\ 0 <= n.
Proof.
  pose proof iota_slack as Hslack.
  assert (Hm : (e - start) mod step = 0).
  { unfold e.
    replace (end_ + (start - end_) mod step - start)
      with ((start - end_) mod step - (start - end_)) by lia.
    rewrite Zminus_mod, Z.mod_mod, Z.sub_diag by lia.
    apply Z.mod_0_l; lia. }
  unfold n. split.
  - pose proof (Z.div_mod (e - start) step ltac:(lia)). lia.
  - apply Z.div_pos; unfold e; lia.
Qed.

Lemma iota_bound_least (x : Z) :
  end_ <= x -> (x - start) mod step = 0 -> e <= x.
Proof.
  intros Hx Hm.
  pose proof iota_slack as Hslack.
  destruct iota_bound_multiple as [He Hn].
  pose proof (Z.div_mod (x - start) step ltac:(lia)) as Hq.
  rewrite Hm in Hq. fold e in Hslack.
  assert (Hlt : e < end_ + step) by (unfold e; lia).
  destruct (Z_lt_le_dec x e) as [Hxe|]; [exfalso | assumption].
  set (q := (x - start) / step) in *.
  assert (q < n) by nia.
  assert (step * (q + 1) <= n * step) by nia.
  lia.
Qed.

(** Position reached after [k] increments, as long as the bound is not
    passed. *)
Lemma iota_advance (k : nat) :
  Z.of_nat k <= n ->
  advance k (hb_iota start end_ step)
  = mk_iota_iter (start + Z.of_nat k * step) e step.
Proof.
  destruct iota_bound_multiple as [He Hn].
  induction k as [|k IH]; intros Hk.
  - unfold advance; simpl. unfold hb_iota, new_hb_iota_iter_t.
    rewrite end_for_normalizes. f_equal. lia.
  - unfold advance in *. rewrite repeat_op_succ_r, IH by lia.
    cbn -[Z.mul Z.add Z.of_nat wrap]. unfold iota___next__.
    cbn -[Z.mul Z.add Z.of_nat wrap]. f_equal.
    rewrite Nat2Z.inj_succ in *.
    rewrite wrap_small; [ring|]. unfold e in *. nia.
Qed.

Lemma iota_exhausts : exhausts_in (hb_iota start end_ step) (Z.to_nat n).
Proof.
  destruct iota_bound_multiple as [He Hn].
  apply runs_out_intro.
  - intros k Hk. fold (advance k (hb_iota start end_ step)).
    rewrite iota_advance by lia. simpl. unfold iota___more__; simpl.
    apply negb_true_iff, Z.eqb_neq. nia.
  - fold (advance (Z.to_nat n) (hb_iota start end_ step)).
    rewrite iota_advance by lia. simpl. unfold iota___more__; simpl.
    apply negb_false_iff, Z.eqb_eq. lia.
Qed.

Lemma iota_len_exact (k : nat) (fuel : nat) :
  Z.of_nat k <= n ->
  let itk := advance k (hb_iota start end_ step) in
  __len__ fuel itk = Some ((e - iota_v itk) / step)
  /\ (e - iota_v itk) mod step = 0
  /\ (e - iota_v itk) / step = n - Z.of_nat k.
Proof.
  intros Hk itk. subst itk.
  destruct iota_bound_multiple as [He Hn].
  rewrite iota_advance by exact Hk. simpl. unfold iota___len__; simpl.
  assert (Hd : e - (start + Z.of_nat k * step) = (n - Z.of_nat k) * step)
    by lia.
  rewrite wrap_small by (unfold e in *; nia).
  rewrite Hd. rewrite Z.mod_mul, Z.div_mul by lia. auto.
Qed.

Lemma iota_items :
  items (Z.to_nat n) (hb_iota start end_ step)
  = map (fun k => start + Z.of_nat k * step) (seq 0 (Z.to_nat n)).
Proof.
  rewrite items_nth. apply map_ext_in. intros k Hk.
  apply in_seq in Hk. rewrite iota_advance by lia. reflexivity.
Qed.

Lemma iota_items_below_end :
  Forall (fun x => start <= x < end_)
         (items (Z.to_nat n) (hb_iota start end_ step)).
Proof.
  pose proof iota_slack as Hslack.
  destruct iota_bound_multiple as [He Hn].
  rewrite iota_items. apply Forall_forall. intros x Hx.
  apply in_map_iff in Hx. destruct Hx as (k & <- & Hk).
  apply in_seq in Hk. unfold e in He. nia.
Qed.

Lemma iota_items_complete (k : Z) :
  0 <= k -> start + k * step < end_ ->
  In (start + k * step) (items (Z.to_nat n) (hb_iota start end_ step)).
Proof.
  intros Hk Hlt.
  pose proof iota_slack as Hslack.
  destruct iota_bound_multiple as [He Hn].
  rewrite iota_items. apply in_map_iff. exists (Z.to_nat k). split.
  - now rewrite Z2Nat.id.
  - apply in_seq. unfold e in He. nia.
Qed.
End iota_in_range.

(** C3, as stated, fails when the normalised bound does not fit the
    integer type: for [iota (0, 4294967295, 2)] the bound [end + 1] wraps
    to 0, which is below [end]; the sequence is exhausted at once and
    yields none of 0, 2, 4, ...  And with [start] above [end], as in
    [iota (10, 0, 3)], the first item yielded is 10, not below [end]. *)
Lemma iota_end_wraps_below_end :
  let it := hb_iota 0 4294967295 2 in
  iota_end it = 0
  /\ ~ (4294967295 <= iota_end it)
  /\ __more__ it = false
  /\ __len__ 0 it = Some 0
  /\ hb_sink 1 [] it = Some []
  /\ __more__ (hb_iota 10 0 3) = true
  /\ __item__ (hb_iota 10 0 3) = 10.
Proof.
  vm_compute. repeat split. intros H; apply H; reflexivity.
Qed.

(** ** [hb_zip] *)

Section zip_facts.
Context {A B TA TB : Type} {IA : hb_iter_t A TA} {IB : hb_iter_t B TB}.

Lemma zip_advance (k : nat) :
  forall (a : A) (b : B),
    advance k (hb_zip a b) = hb_zip (advance k a) (advance k b).
Proof.
  unfold advance.
  induction k as [|k IH]; intros a b; [reflexivity|].
  simpl. apply IH.
Qed.

Lemma zip_items (n : nat) :
  forall (m : nat) (a : A) (b : B),
    items (Nat.min n m) (hb_zip a b) = combine (items n a) (items m b).
Proof.
  induction n as [|n IH]; intros [|m] a b; try reflexivity.
  simpl. f_equal. apply IH.
Qed.

Lemma zip_exhausts (a : A) (b : B) (n m : nat) :
  exhausts_in a n -> exhausts_in b m ->
  exhausts_in (hb_zip a b) (Nat.min n m).
Proof.
  unfold exhausts_in. intros Ha Hb. apply runs_out_intro.
  - intros k Hk. fold (advance k (hb_zip a b)). rewrite zip_advance.
    simpl. apply andb_true_iff; split.
    + apply (runs_out_more _ _ a n Ha); lia.
    + apply (runs_out_more _ _ b m Hb); lia.
  - fold (advance (Nat.min n m) (hb_zip a b)). rewrite zip_advance.
    simpl. apply andb_false_iff.
    destruct (Nat.le_ge_cases n m) as [Hle | Hle].
    + left. rewrite Nat.min_l by exact Hle.
      apply (runs_out_exhausted _ _ a n Ha).
    + right. rewrite Nat.min_r by exact Hle.
      apply (runs_out_exhausted _ _ b m Hb).
Qed.
End zip_facts.

(** C4: for finite [a] and [b], [hb_zip (a, b)] pairs the items
    position by position, its [len()] is the smaller of the two lengths,
    it yields as many items as the shorter input, and at every position
    it is exhausted exactly when one of its inputs is. *)
Theorem zip_pairs_positionally :
  forall (A B TA TB : Type) (IA : hb_iter_t A TA) (IB : hb_iter_t B TB)
         (a : A) (b : B) (n m : nat),
    exhausts_in a n -> exhausts_in b m ->
    let z := hb_zip a b in
    (forall k, __item__ (advance k z)
               = (__item__ (advance k a), __item__ (advance k b)))
    /\ (forall i, __item_at__ i z = (__item_at__ i a, __item_at__ i b))
    /\ items (Nat.min n m) z = combine (items n a) (items m b)
    /\ (forall fuel la lb,
          __len__ fuel a = Some la -> __len__ fuel b = Some lb ->
          __len__ fuel z = Some (Z.min la lb))
    /\ exhausts_in z (Nat.min n m)
    /\ (forall k, __more__ (advance k z) = false
                  <-> __more__ (advance k a) = false
                      \/ __more__ (advance k b) = false).
Proof.
  intros A B TA TB IA IB a b n m Ha Hb z. subst z.
  split; [|split; [|split; [|split; [|split]]]].
  - intros k. now rewrite zip_advance.
  - reflexivity.
  - apply zip_items.
  - intros fuel la lb Hla Hlb. simpl. now rewrite Hla, Hlb.
  - now apply zip_exhausts.
  - intros k. rewrite zip_advance. simpl. apply andb_false_iff.
Qed.

Lemma zip_pairs_positionally_witness :
  items 2 (hb_zip (hb_iota 5 7 1) (list_iter_of [10; 20; 30]))
  = [(5, 10); (6, 20)]
  /\ exhausts_in (hb_zip (hb_iota 5 7 1) (list_iter_of [10; 20; 30])) 2.
Proof.
  destruct (zip_pairs_positionally _ _ _ _ _ _
              (hb_iota 5 7 1) (list_iter_of [10; 20; 30]) 2%nat 3%nat)
    as (_ & _ & Hit & _ & Hex & _).
  - repeat constructor.
  - repeat constructor.
  - split; [exact Hit | exact Hex].
Defined.

(** C10: for finite inputs of different lengths whose own [!=] tells a
    position with items left from their [end()], the [end()] of the zip
    is the pair of the inputs' ends; walking the zip forward exhausts it
    after as many steps as the shorter input has items, with the longer
    input still short of its end; and neither that exhausted iterator nor
    any position before it compares equal to [end()]. *)
Theorem zip_exhausted_differs_from_end :
  forall (A B TA TB : Type) (IA : hb_iter_t A TA) (IB : hb_iter_t B TB)
         (NA : hb_iter_ne A) (NB : hb_iter_ne B)
         (a : A) (b : B) (n m fuel : nat) (ea : A) (eb : B),
    exhausts_in a n -> exhausts_in b m -> n <> m ->
    __end__ fuel a = Some ea -> __end__ fuel b = Some eb ->
    (forall k, (k < n)%nat -> ne (advance k a) ea = true) ->
    (forall k, (k < m)%nat -> ne (advance k b) eb = true) ->
    let z := hb_zip a b in
    let x := advance (Nat.min n m) z in
    __end__ fuel z = Some (hb_zip ea eb)
    /\ exhausts_in z (Nat.min n m)
    /\ __more__ x = false
    /\ (__more__ (zip_a x) = true \/ __more__ (zip_b x) = true)
    /\ ne x (hb_zip ea eb) = true
    /\ (forall k, (k <= Nat.min n m)%nat ->
          ne (advance k z) (hb_zip ea eb) = true).
Proof.
  intros A B TA TB IA IB NA NB a b n m fuel ea eb Ha Hb Hnm Hea Heb Hna Hnb
         z x.
  assert (Hex : exhausts_in z (Nat.min n m)) by now apply zip_exhausts.
  assert (Hall : forall k, (k <= Nat.min n m)%nat ->
                   ne (advance k z) (hb_zip ea eb) = true).
  { intros k Hk. unfold z. rewrite zip_advance. simpl.
    apply orb_true_iff.
    destruct (Nat.lt_ge_cases n m) as [Hlt | Hge].
    - right. apply Hnb. lia.
    - left. apply Hna. lia. }
  repeat apply conj.
  - simpl. now rewrite Hea, Heb.
  - exact Hex.
  - exact (runs_out_exhausted _ _ z _ Hex).
  - unfold x, z. rewrite zip_advance. simpl.
    destruct (Nat.lt_ge_cases n m) as [Hlt | Hge].
    + right. apply (runs_out_more _ _ b m Hb). lia.
    + left. apply (runs_out_more _ _ a n Ha). lia.
  - apply Hall. lia.
  - exact Hall.
Qed.

Lemma zip_exhausted_differs_from_end_witness :
  let z := hb_zip (hb_enumerate (hb_iota 0 2 1))
                  (hb_enumerate (hb_iota 0 3 1)) in
  exists e, __end__ 1 z = Some e
            /\ __more__ (advance 2 z) = false
            /\ ne (advance 2 z) e = true.
Proof.
  intros z.
  destruct (zip_exhausted_differs_from_end _ _ _ _ _ _ _ _
              (hb_enumerate (hb_iota 0 2 1)) (hb_enumerate (hb_iota 0 3 1))
              2%nat 3%nat 1%nat
              (mk_enumerate_iter 2 (mk_iota_iter 2 2 1))
              (mk_enumerate_iter 3 (mk_iota_iter 3 3 1)))
    as (He & _ & Hm & _ & Hne & _).
  - repeat constructor.
  - repeat constructor.
  - lia.
  - reflexivity.
  - reflexivity.
  - intros [|[|k]] Hk; [reflexivity | reflexivity | lia].
  - intros [|[|[|k]]] Hk; [reflexivity | reflexivity | reflexivity | lia].
  - eexists. split; [exact He | split; [exact Hm | exact Hne]].
Defined.

(** ** [hb_reduce] *)

Section reduce_facts.
Context {Iter T AccuT : Type} {I : hb_iter_t Iter T}.
Variable r : AccuT -> T -> AccuT.

Lemma hb_reduce_run_fold (it : Iter) (n : nat) :
  exhausts_in it n ->
  forall fuel value t, (n < fuel)%nat ->
    hb_reduce_run fuel r value it t
    = Some (fold_left r (items n it) value,
            mk_trace (accesses t + n) (advances t + n)).
Proof.
  unfold exhausts_in.
  induction 1 as [it Hm | it n Hm Hn IH]; intros fuel value t Hf;
    one_round fuel; rewrite Hm.
  - destruct t as [acc adv]; simpl. now rewrite !Nat.add_0_r.
  - rewrite IH by lia. simpl. do 3 f_equal; lia.
Qed.
End reduce_facts.

(** C6: over a finite sequence with [n] items left, [hb_reduce] returns
    the left fold of [op] over those items in traversal order, starting
    from [init], reading each item once and advancing once per item; over
    an exhausted sequence it returns [init]. *)
Theorem reduce_is_left_fold :
  forall (Iter T AccuT : Type) (I : hb_iter_t Iter T)
         (op : AccuT -> T -> AccuT) (init : AccuT) (it : Iter),
    (forall n fuel, exhausts_in it n -> (n < fuel)%nat ->
       hb_reduce fuel op init it = Some (fold_left op (items n it) init)
       /\ hb_reduce_run fuel op init it no_trace
          = Some (fold_left op (items n it) init, mk_trace n n))
    /\ (forall fuel, __more__ it = false ->
          hb_reduce (S fuel) op init it = Some init).
Proof.
  intros Iter T AccuT I op init it. split.
  - intros n fuel Hn Hf. unfold hb_reduce.
    rewrite (hb_reduce_run_fold op it n Hn fuel init no_trace Hf).
    split; reflexivity.
  - intros fuel Hm. unfold hb_reduce. simpl. now rewrite Hm.
Qed.

Lemma reduce_is_left_fold_witness :
  hb_reduce 5 Z.add 0 (hb_iota 0 10 3) = Some 18.
Proof.
  destruct (reduce_is_left_fold _ _ _ _ Z.add 0 (hb_iota 0 10 3))
    as [Hfold _].
  destruct (Hfold 4%nat 5%nat) as [Hr _].
  - repeat constructor.
  - lia.
  - exact Hr.
Defined.

(** ** [hb_all], [hb_any], [hb_none] *)

Section predicate_facts.
Context {Iter T B : Type} {I : hb_iter_t Iter T}.
Variable p : B -> bool.
Variable f : T -> B.

(** The loops of [hb_any] and [hb_none] run in lockstep and differ in
    the answer only. *)
Lemma hb_none_run_any_run (fuel : nat) :
  forall (it : Iter) t,
    hb_none_run fuel p f it t
    = option_map (fun bt => (negb (fst bt), snd bt))
        (hb_any_run fuel p f it t).
Proof.
  induction fuel as [|fuel IH]; intros it t; simpl; [reflexivity|].
  destruct (__more__ it); [|reflexivity].
  destruct (hb_match p (hb_get f (__item__ it))); [reflexivity | apply IH].
Qed.

Lemma hb_all_run_none_run (fuel : nat) :
  forall (it : Iter) t,
    hb_all_run fuel p f it t = hb_none_run fuel (negate p) f it t.
Proof.
  induction fuel as [|fuel IH]; intros it t; simpl; [reflexivity|].
  destruct (__more__ it); [|reflexivity].
  unfold hb_match, negate at 1.
  destruct (p (hb_get f (__item__ it))); simpl; [apply IH | reflexivity].
Qed.

(** [hb_any] over a sequence whose first match stands at position [k]. *)
Lemma hb_any_run_first_match (k : nat) :
  forall (it : Iter) fuel t,
    (forall j, (j <= k)%nat -> __more__ (advance j it) = true) ->
    (forall j, (j < k)%nat -> p (f (__item__ (advance j it))) = false) ->
    p (f (__item__ (advance k it))) = true ->
    (k < fuel)%nat ->
    hb_any_run fuel p f it t
    = Some (true, mk_trace (accesses t + S k) (advances t + k)).
Proof.
  induction k as [|k IH]; intros it fuel t Hm Hno Hyes Hf;
    (destruct fuel as [|fuel]; [lia|]);
    pose proof (Hm 0%nat ltac:(lia)) as Hm0;
    change (advance 0 it) with it in Hm0;
    simpl; rewrite Hm0; unfold hb_match, hb_get.
  - change (advance 0 it) with it in Hyes. rewrite Hyes.
    unfold on_access. do 3 f_equal; lia.
  - pose proof (Hno 0%nat ltac:(lia)) as Hno0.
    change (advance 0 it) with it in Hno0. rewrite Hno0.
    rewrite IH; try lia.
    + simpl. do 3 f_equal; lia.
    + intros j Hj. apply (Hm (S j)). lia.
    + intros j Hj. apply (Hno (S j)). lia.
    + exact Hyes.
Qed.

(** A finite sequence always gets an answer from [hb_any]. *)
Lemma hb_any_run_returns (it : Iter) (n : nat) :
  exhausts_in it n ->
  forall fuel t, (n < fuel)%nat ->
    exists b t', hb_any_run fuel p f it t = Some (b, t').
Proof.
  unfold exhausts_in.
  induction 1 as [it Hm | it n Hm Hn IH]; intros fuel t Hf;
    one_round fuel; rewrite Hm.
  - eauto.
  - destruct (hb_match p (hb_get f (__item__ it))); [eauto|].
    apply IH. lia.
Qed.
End predicate_facts.

(** C5: [hb_any], [hb_none] and [hb_all] stop at the first item that
    decides the answer.  If the item at position [k] is the first to
    match, [hb_any] returns true and [hb_none] returns false after reading
    [k + 1] items and advancing [k] times; if it is the first to fail,
    [hb_all] returns false at the same cost.  Nothing is assumed about
    the sequence beyond position [k], so [k + 1] units of fuel suffice
    even when it never ends: over the unbounded counter with a predicate
    that always holds, [hb_any] returns true after reading one item and
    advancing zero times. *)
Theorem any_all_none_short_circuit :
  (forall (Iter T B : Type) (I : hb_iter_t Iter T)
          (p : B -> bool) (f : T -> B) (it : Iter) (k fuel : nat),
      (forall j, (j <= k)%nat -> __more__ (advance j it) = true) ->
      (k < fuel)%nat ->
      ((forall j, (j < k)%nat -> p (f (__item__ (advance j it))) = false) ->
       p (f (__item__ (advance k it))) = true ->
       hb_any_run fuel p f it no_trace = Some (true, mk_trace (S k) k)
       /\ hb_none_run fuel p f it no_trace = Some (false, mk_trace (S k) k))
      /\ ((forall j, (j < k)%nat -> p (f (__item__ (advance j it))) = true) ->
          p (f (__item__ (advance k it))) = false ->
          hb_all_run fuel p f it no_trace = Some (false, mk_trace (S k) k)))
  /\ (forall (c : counter_iter_t) (n fuel : nat),
        __more__ (advance n c) = true
        /\ hb_any_run (S fuel) (fun _ : Z => true) hb_identity c no_trace
           = Some (true, mk_trace 1 0)
        /\ hb_any (S fuel) (fun _ : Z => true) hb_identity c = Some true).
Proof.
  split.
  - intros Iter T B I p f it k fuel Hm Hf. split.
    + intros Hno Hyes.
      pose proof (hb_any_run_first_match p f k it fuel no_trace
                    Hm Hno Hyes Hf) as Hany.
      rewrite hb_none_run_any_run, Hany. split; reflexivity.
    + intros Hyes Hno.
      rewrite hb_all_run_none_run, hb_none_run_any_run.
      rewrite (hb_any_run_first_match (negate p) f k it fuel no_trace);
        try assumption; try reflexivity.
      * intros j Hj. unfold negate. now rewrite Hyes.
      * unfold negate. now rewrite Hno.
  - intros c n fuel. repeat split.
Qed.

Lemma any_all_none_short_circuit_witness :
  hb_any_run 3 Z.even hb_identity (list_iter_of [1; 3; 4; 5]) no_trace
  = Some (true, mk_trace 3 2).
Proof.
  destruct any_all_none_short_circuit as [Hgen _].
  destruct (Hgen _ _ _ _ Z.even hb_identity
              (list_iter_of [1; 3; 4; 5]) 2%nat 3%nat) as [Hany _].
  - intros [|[|[|j]]] Hj; [reflexivity | reflexivity | reflexivity | lia].
  - lia.
  - destruct Hany as [Hr _].
    + intros [|[|j]] Hj; [reflexivity | reflexivity | lia].
    + reflexivity.
    + exact Hr.
Defined.

(** C8: whatever the fuel, [hb_none] is the negation of [hb_any] and
    [hb_all (p)] is [hb_none (negate (p))]; over a finite sequence, with
    more fuel than items left, all three return a value. *)
Theorem none_is_not_any :
  forall (Iter T B : Type) (I : hb_iter_t Iter T)
         (p : B -> bool) (f : T -> B) (it : Iter),
    (forall fuel,
        hb_none fuel p f it = option_map negb (hb_any fuel p f it)
        /\ hb_all fuel p f it = hb_none fuel (negate p) f it)
    /\ (forall n fuel, exhausts_in it n -> (n < fuel)%nat ->
          exists b c,
            hb_any fuel p f it = Some b
            /\ hb_none fuel p f it = Some (negb b)
            /\ hb_none fuel (negate p) f it = Some c
            /\ hb_all fuel p f it = Some c).
Proof.
  intros Iter T B I p f it.
  assert (Heq : forall fuel,
             hb_none fuel p f it = option_map negb (hb_any fuel p f it)
             /\ hb_all fuel p f it = hb_none fuel (negate p) f it).
  { intros fuel. unfold hb_none, hb_any, hb_all. split.
    - rewrite hb_none_run_any_run.
      now destruct (hb_any_run fuel p f it no_trace) as [[b t]|].
    - now rewrite hb_all_run_none_run. }
  split; [exact Heq|].
  intros n fuel Hn Hf.
  destruct (Heq fuel) as [Hnone Hall].
  destruct (hb_any_run_returns p f it n Hn fuel no_trace Hf)
    as (b & t & Hb).
  destruct (hb_any_run_returns (negate p) f it n Hn fuel no_trace Hf)
    as (c & t' & Hc).
  exists b, (negb c).
  assert (Hnn : hb_none fuel (negate p) f it = Some (negb c)).
  { unfold hb_none. rewrite hb_none_run_any_run, Hc. reflexivity. }
  repeat split.
  - unfold hb_any. now rewrite Hb.
  - rewrite Hnone. unfold hb_any. now rewrite Hb.
  - exact Hnn.
  - now rewrite Hall.
Qed.

Lemma none_is_not_any_witness :
  exists b c,
    hb_any 5 Z.even hb_identity (list_iter_of [1; 3; 4; 5]) = Some b
    /\ hb_none 5 Z.even hb_identity (list_iter_of [1; 3; 4; 5])
       = Some (negb b)
    /\ hb_none 5 (negate Z.even) hb_identity (list_iter_of [1; 3; 4; 5])
       = Some c
    /\ hb_all 5 Z.even hb_identity (list_iter_of [1; 3; 4; 5]) = Some c.
Proof.
  destruct (none_is_not_any _ _ _ _ Z.even hb_identity
              (list_iter_of [1; 3; 4; 5])) as [_ Hfin].
  apply (Hfin 4%nat 5%nat).
  - repeat constructor.
  - lia.
Defined.

(** ** [hb_filter] *)

Section filter_facts.
Context {Iter A B : Type} {I : hb_iter_t Iter A}.
Variable p : B -> bool.
Variable f : A -> B.

(** Whenever the skipping loop returns, it stands on a matching item or
    on an exhausted iterator. *)
Lemma filter_skip_stops (fuel : nat) :
  forall it it' : Iter,
    filter_skip fuel p f it = Some it' ->
    __more__ it' = false \/ p (f (__item__ it')) = true.
Proof.
  induction fuel as [|fuel IH]; intros it it'; simpl; [discriminate|].
  destruct (__more__ it) eqn:Hm; simpl.
  - unfold hb_has, hb_get.
    destruct (p (f (__item__ it))) eqn:Hp; simpl.
    + intros [= <-]. now right.
    + apply IH.
  - intros [= <-]. now left.
Qed.

(** On a finite sequence the skipping loop returns, having passed over
    [k] leading items, none of which matches. *)
Lemma filter_skip_finite (it : Iter) (n : nat) :
  exhausts_in it n ->
  forall fuel, (n < fuel)%nat ->
    exists k,
      (k <= n)%nat
      /\ filter_skip fuel p f it = Some (advance k it)
      /\ (forall j, (j < k)%nat -> p (f (__item__ (advance j it))) = false)
      /\ ((k < n)%nat -> p (f (__item__ (advance k it))) = true).
Proof.
  unfold exhausts_in.
  induction 1 as [it Hm | it n Hm Hn IH]; intros fuel Hf;
    one_round fuel; rewrite Hm; simpl.
  - exists 0%nat. repeat split; [lia | | lia].
    intros j Hj; lia.
  - unfold hb_has, hb_get.
    destruct (p (f (__item__ it))) eqn:Hp; simpl.
    + exists 0%nat. repeat split; [lia | | auto].
      intros j Hj; lia.
    + destruct (IH fuel ltac:(lia)) as (k & Hk & Hs & Hno & Hyes).
      exists (S k). repeat split.
      * lia.
      * exact Hs.
      * intros [|j] Hj; [exact Hp | apply Hno; lia].
      * intros Hlt. apply Hyes. lia.
Qed.

End filter_facts.

(** Both the constructor and [__next__] leave the filter on a matching
    item or exhausted. *)
Lemma filter_forward_lands_on_match {Iter A B : Type} {I : hb_iter_t Iter A}
      (fuel : nat) (p : B -> bool) (f : A -> B) (it : Iter)
      (flt flt' : hb_filter_iter_t Iter A B) :
  (hb_filter fuel p f it = Some flt ->
   filter___more__ flt = true ->
   filter_p flt (filter_f flt (filter___item__ flt)) = true)
  /\ (filter___next__ fuel flt = Some flt' ->
      filter___more__ flt' = true ->
      filter_p flt' (filter_f flt' (filter___item__ flt')) = true).
Proof.
  unfold hb_filter, new_hb_filter_iter_t, filter___next__,
    filter___more__, filter___item__.
  split.
  - destruct (filter_skip fuel p f it) as [it'|] eqn:Hs; simpl;
      [|discriminate].
    intros [= <-]; simpl. intros Hm.
    destruct (filter_skip_stops _ _ _ _ _ Hs); congruence.
  - destruct flt as [fit fp ff]; simpl.
    destruct (filter_skip fuel fp ff (__next__ fit)) as [it'|] eqn:Hs; simpl;
      [|discriminate].
    intros [= <-]; simpl. intros Hm.
    destruct (filter_skip_stops _ _ _ _ _ Hs); congruence.
Qed.


(** C9: constructing a filter over a finite sequence returns a filter
    that has passed over the leading items failing [pred (proj (item))]
    and over nothing else.  It stands on the first matching item when
    there is one; when no item matches it is exhausted, and the
    constructor still returns normally. *)
Theorem filter_constructor_advances_to_first_match :
  forall (Iter A B : Type) (I : hb_iter_t Iter A)
         (pred : B -> bool) (proj : A -> B) (it : Iter) (n fuel : nat),
    exhausts_in it n -> (n < fuel)%nat ->
    exists k flt,
      (k <= n)%nat
      /\ hb_filter fuel pred proj it = Some flt
      /\ flt = mk_filter_iter (advance k it) pred proj
      /\ (forall j, (j < k)%nat ->
            pred (proj (__item__ (advance j it))) = false)
      /\ ((k < n)%nat ->
            filter___more__ flt = true
            /\ pred (proj (filter___item__ flt)) = true)
      /\ (k = n -> filter___more__ flt = false)
      /\ ((forall j, (j < n)%nat ->
             pred (proj (__item__ (advance j it))) = false) ->
          k = n /\ filter___more__ flt = false).
Proof.
  intros Iter A B I pred proj it n fuel Hn Hf.
  destruct (filter_skip_finite pred proj it n Hn fuel Hf)
    as (k & Hk & Hs & Hno & Hyes).
  exists k, (mk_filter_iter (advance k it) pred proj).
  assert (Hend : k = n -> __more__ (advance k it) = false).
  { intros ->. exact (runs_out_exhausted _ _ it n Hn). }
  repeat apply conj; try assumption; try reflexivity.
  - unfold hb_filter, new_hb_filter_iter_t. now rewrite Hs.
  - intros Hlt. split.
    + exact (runs_out_more _ _ it n Hn k Hlt).
    + now apply Hyes.
  - intros Hall.
    assert (Hkn : k = n).
    { destruct (Nat.eq_dec k n) as [|Hne]; [assumption|].
      assert (Hlt : (k < n)%nat) by lia.
      specialize (Hyes Hlt). specialize (Hall k Hlt). congruence. }
    split; [exact Hkn | now apply Hend].
Qed.

Lemma filter_constructor_advances_to_first_match_witness :
  exists flt,
    hb_filter 3 Z.odd hb_identity (list_iter_of [2; 4]) = Some flt
    /\ filter___more__ flt = false.
Proof.
  destruct (filter_constructor_advances_to_first_match _ _ _ _
              Z.odd hb_identity (list_iter_of [2; 4]) 2%nat 3%nat)
    as (k & flt & _ & Hc & _ & _ & _ & _ & Hnone).
  - repeat constructor.
  - lia.
  - exists flt. split; [exact Hc|].
    apply Hnone.
    intros [|[|j]] Hj; [reflexivity | reflexivity | lia].
Defined.

(** C2 at a failing input: over [iota (0, 10, 1)] filtered by oddness,
    the constructor stands on 1 and [++] moves to 3, but [--] from there
    lands on 2, a live position whose item the predicate rejects. *)
Lemma filter_prev_yields_rejected_item :
  exists flt flt',
    hb_filter 2 Z.odd hb_identity (hb_iota 0 10 1) = Some flt
    /\ filter___item__ flt = 1
    /\ filter___next__ 2 flt = Some flt'
    /\ filter___item__ flt' = 3
    /\ filter___more__ (filter___prev__ flt') = true
    /\ filter___item__ (filter___prev__ flt') = 2
    /\ filter_p flt' (filter_f flt' (filter___item__ (filter___prev__ flt')))
       = false.
Proof.
  do 2 eexists. repeat split.
Qed.

(** ** Static flags *)

(** C7: enumerate is always sorted; filter has the sorted flag of its
    input; zip is sorted exactly when both inputs are; map is not
    sorted, whatever its input and projection (the code offers no way to
    assert monotonicity); iota is always sorted. *)
Theorem sorted_flag_propagation :
  (forall (Iter T : Type) (I : hb_iter_t Iter T),
      is_sorted_iterator (hb_enumerate_iter_t Iter) = true)
  /\ (forall (Iter A : Type) (I : hb_iter_t Iter A),
        @filter_is_sorted_iterator Iter A I = is_sorted_iterator Iter)
  /\ (forall (A B TA TB : Type) (IA : hb_iter_t A TA) (IB : hb_iter_t B TB),
        is_sorted_iterator (hb_zip_iter_t A B) = true
        <-> is_sorted_iterator A = true /\ is_sorted_iterator B = true)
  /\ (forall (Iter A B : Type) (I : hb_iter_t Iter A),
        is_sorted_iterator (hb_map_iter_t Iter A B) = false)
  /\ is_sorted_iterator hb_iota_iter_t = true.
Proof.
  repeat apply conj; try reflexivity.
  intros A B TA TB IA IB. simpl. apply andb_true_iff.
Qed.

(** * Further properties of the adaptors and consumers *)

(** ** [hb_map] *)

Section map_facts.
Context {Iter A B : Type} {I : hb_iter_t Iter A}.
Variable f : A -> B.

Lemma map_advance (k : nat) :
  forall it : Iter, advance k (hb_map f it) = hb_map f (advance k it).
Proof.
  unfold advance.
  induction k as [|k IH]; intro it; [reflexivity|]. simpl. apply IH.
Qed.

Lemma map_items (n : nat) :
  forall it : Iter, items n (hb_map f it) = map f (items n it).
Proof.
  induction n as [|n IH]; intro it; [reflexivity|].
  simpl. f_equal. apply IH.
Qed.

Lemma map_exhausts (it : Iter) (n : nat) :
  exhausts_in it n <-> exhausts_in (hb_map f it) n.
Proof.
  unfold exhausts_in. split.
  - induction 1 as [it Hm | it n Hm Hn IH].
    + now constructor.
    + constructor; [exact Hm | exact IH].
  - revert it. induction n as [|n IH]; intros it Hr; inversion Hr; subst.
    + now constructor.
    + constructor; [assumption | now apply IH].
Qed.
End map_facts.

(** X1: a map over a sequence is exhausted after the same number of
    steps as the sequence, reports the same [len()], and sinking it over
    a finite sequence appends [f] of each item, in order. *)
Theorem map_yields_projected_items :
  forall (Iter A B : Type) (I : hb_iter_t Iter A) (f : A -> B) (it : Iter)
         (n fuel : nat) (s : list B),
    exhausts_in it n -> (n < fuel)%nat ->
    exhausts_in (hb_map f it) n
    /\ __len__ fuel (hb_map f it) = __len__ fuel it
    /\ hb_sink fuel s (hb_map f it) = Some (s ++ map f (items n it)).
Proof.
  intros Iter A B I f it n fuel s Hn Hf.
  assert (Hm : exhausts_in (hb_map f it) n) by now apply map_exhausts.
  repeat split; [exact Hm|].
  rewrite (hb_sink_items _ n Hm fuel s Hf). now rewrite map_items.
Qed.

Lemma map_yields_projected_items_witness :
  hb_sink 5 [] (hb_map (fun x => x * x) (hb_iota 0 10 3))
  = Some [0; 9; 36; 81].
Proof.
  destruct (map_yields_projected_items _ _ _ _ (fun x => x * x)
              (hb_iota 0 10 3) 4%nat 5%nat []) as (_ & _ & Hs).
  - repeat constructor.
  - lia.
  - exact Hs.
Defined.

(** X2: functor law.  Mapping [f] and then [g] yields, for every fuel
    bound and every sink, what mapping their composition yields; the two
    iterators are exhausted together. *)
Theorem map_map_compose :
  forall (Iter A B C : Type) (I : hb_iter_t Iter A)
         (f : A -> B) (g : B -> C) (fuel : nat) (s : list C) (it : Iter),
    hb_sink fuel s (hb_map g (hb_map f it))
    = hb_sink fuel s (hb_map (fun x => g (f x)) it)
    /\ (forall n, exhausts_in (hb_map g (hb_map f it)) n
                  <-> exhausts_in (hb_map (fun x => g (f x)) it) n).
Proof.
  intros Iter A B C I f g fuel s it. split.
  - revert s it. induction fuel as [|fuel IH]; intros s it; [reflexivity|].
    simpl. destruct (__more__ it); [|reflexivity].
    apply (IH (s ++ [g (f (__item__ it))]) (__next__ it)).
  - intros n. rewrite <- !map_exhausts. reflexivity.
Qed.

(** ** [hb_enumerate] *)

Section enumerate_facts.
Context {Iter T : Type} {I : hb_iter_t Iter T}.

Lemma enumerate_advance (k : nat) :
  forall (i : Z) (it : Iter),
    0 <= i -> i + Z.of_nat k < UINT_MODULUS ->
    advance k (mk_enumerate_iter i it)
    = mk_enumerate_iter (i + Z.of_nat k) (advance k it).
Proof.
  unfold advance.
  induction k as [|k IH]; intros i it Hi Hk.
  - simpl. now rewrite Z.add_0_r.
  - change (repeat_op __next__ (S k) (mk_enumerate_iter i it))
      with (repeat_op __next__ k
              (mk_enumerate_iter (wrap (i + 1)) (__next__ it))).
    rewrite wrap_small by lia. rewrite IH by lia.
    f_equal. lia.
Qed.

Lemma enumerate_exhausts (it : Iter) (n : nat) (i : Z) :
  exhausts_in it n <-> exhausts_in (mk_enumerate_iter i it) n.
Proof.
  unfold exhausts_in. split.
  - intros Hn. revert i.
    induction Hn as [it Hm | it n Hm Hn IH]; intro i.
    + now constructor.
    + constructor; [exact Hm | apply IH].
  - revert it i. induction n as [|n IH]; intros it i Hr; inversion Hr; subst.
    + now constructor.
    + constructor; [assumption|].
      apply (IH (__next__ it) (wrap (i + 1))). assumption.
Qed.

Lemma enumerate_items (n : nat) :
  forall (i : Z) (it : Iter),
    0 <= i -> i + Z.of_nat n <= UINT_MODULUS ->
    items n (mk_enumerate_iter i it)
    = combine (map (fun k => i + Z.of_nat k) (seq 0 n)) (items n it).
Proof.
  induction n as [|n IH]; intros i it Hi Hn; [reflexivity|].
  change (items (S n) (mk_enumerate_iter i it))
    with ((i, __item__ it)
          :: items n (mk_enumerate_iter (wrap (i + 1)) (__next__ it))).
  destruct (Nat.eq_dec n 0) as [-> | Hpos].
  - simpl. now rewrite Z.add_0_r.
  - rewrite wrap_small by lia. rewrite IH by lia.
    change (seq 0 (S n)) with (0%nat :: seq 1 n).
    change (items (S n) it) with (__item__ it :: items n (__next__ it)).
    cbn [map combine]. rewrite <- seq_shift, map_map.
    f_equal; [f_equal; lia|]. f_equal.
    apply map_ext. intros k. lia.
Qed.
End enumerate_facts.

(** X3: enumerate pairs the items of a finite sequence with 0, 1, 2, ...
    in order, as long as the sequence has at most [2^32] items (the
    index is an [unsigned]); it is exhausted after as many steps as its
    input and reports the input's [len()]. *)
Theorem enumerate_numbers_items :
  forall (Iter T : Type) (I : hb_iter_t Iter T) (it : Iter) (n fuel : nat),
    exhausts_in it n -> Z.of_nat n <= UINT_MODULUS ->
    items n (hb_enumerate it)
    = combine (map Z.of_nat (seq 0 n)) (items n it)
    /\ exhausts_in (hb_enumerate it) n
    /\ __len__ fuel (hb_enumerate it) = __len__ fuel it.
Proof.
  intros Iter T I it n fuel Hn Hb. unfold hb_enumerate. repeat split.
  - rewrite enumerate_items by lia. reflexivity.
  - now apply enumerate_exhausts.
Qed.

Lemma enumerate_numbers_items_witness :
  items 3 (hb_enumerate (list_iter_of [7; 8; 9])) = [(0, 7); (1, 8); (2, 9)].
Proof.
  destruct (enumerate_numbers_items _ _ _ (list_iter_of [7; 8; 9])
              3%nat 0%nat) as (Hit & _).
  - repeat constructor.
  - vm_compute. discriminate.
  - exact Hit.
Defined.

(** ** The fallback mixin *)

Lemma wrap_add_l (a b : Z) : wrap (wrap a + b) = wrap (a + b).
Proof. unfold wrap. apply Zplus_mod_idemp_l. Qed.

Lemma wrap_add_r (a b : Z) : wrap (a + wrap b) = wrap (a + b).
Proof. unfold wrap. apply Zplus_mod_idemp_r. Qed.

Lemma wrap_sub_r (a b : Z) : wrap (a - wrap b) = wrap (a - b).
Proof. unfold wrap. apply Zminus_mod_idemp_r. Qed.

Lemma wrap_wrap (a : Z) : wrap (wrap a) = wrap a.
Proof. unfold wrap. apply Z.mod_mod. discriminate. Qed.

Section fallback_facts.
Context {A : Type}.
Variable more : A -> bool.
Variable next : A -> A.
Variable prev : A -> A.

Lemma fallback_len_loop_counts (it : A) (n : nat) :
  runs_out more next it n ->
  forall fuel l, (n < fuel)%nat ->
    fallback___len___loop more next fuel it (wrap l)
    = Some (wrap (l + Z.of_nat n)).
Proof.
  induction 1 as [it Hm | it n Hm Hn IH]; intros fuel l Hf;
    one_round fuel; rewrite Hm.
  - now rewrite Z.add_0_r.
  - rewrite wrap_add_l, IH by lia. f_equal. f_equal. lia.
Qed.

Lemma fallback_rewind_forward (n : nat) :
  forall it : A,
    (forall k, (k < n)%nat ->
       prev (next (repeat_op next k it)) = repeat_op next k it) ->
    repeat_op prev n (repeat_op next n it) = it.
Proof.
  induction n as [|n IH]; intros it Hinv; [reflexivity|].
  rewrite (repeat_op_succ_r next n it).
  change (repeat_op prev (S n) (next (repeat_op next n it)))
    with (repeat_op prev n (prev (next (repeat_op next n it)))).
  rewrite Hinv by lia. apply IH. intros k Hk. apply Hinv. lia.
Qed.
End fallback_facts.

(** X4: over a sequence with [n] items left the fallback [__len__]
    returns [n] reduced modulo [2^32], its counter being an [unsigned];
    in particular it returns [n] itself when [n < 2^32], and 0 for an
    exhausted sequence. *)
Theorem fallback_len_counts_items :
  forall (A : Type) (more : A -> bool) (next : A -> A) (it : A)
         (n fuel : nat),
    runs_out more next it n -> (n < fuel)%nat ->
    fallback___len__ more next fuel it = Some (wrap (Z.of_nat n))
    /\ (Z.of_nat n < UINT_MODULUS ->
        fallback___len__ more next fuel it = Some (Z.of_nat n)).
Proof.
  intros A more next it n fuel Hn Hf.
  assert (Hl : fallback___len__ more next fuel it = Some (wrap (Z.of_nat n))).
  { unfold fallback___len__.
    change 0 with (wrap 0) at 1.
    now rewrite (fallback_len_loop_counts more next it n Hn fuel 0 Hf). }
  split; [exact Hl|].
  intros Hb. rewrite Hl, wrap_small by lia. reflexivity.
Qed.

Lemma fallback_len_counts_items_witness :
  __len__ 4 (list_iter_of [7; 8; 9]) = Some 3.
Proof.
  destruct (fallback_len_counts_items _ list___more__ list___next__
              (list_iter_of [7; 8; 9]) 3%nat 4%nat) as [_ Hl].
  - repeat constructor.
  - lia.
  - apply Hl. reflexivity.
Defined.

(** X5: the two branches of the fallback [__end__] agree.  For a
    sequence with fewer than [2^32] items left, advancing by the fallback
    [len()] with the fallback [+=] (which loops twice) returns the same
    position as the single loop to exhaustion. *)
Theorem fallback_end_branches_agree :
  forall (A : Type) (more : A -> bool) (next : A -> A) (it : A)
         (n fuel : nat),
    runs_out more next it n -> (n < fuel)%nat ->
    Z.of_nat n < UINT_MODULUS ->
    fallback___end__ true more (fallback___len__ more next) next
      (fallback___forward__ next) fuel it
    = fallback___end__ false more (fallback___len__ more next) next
        (fallback___forward__ next) fuel it.
Proof.
  intros A more next it n fuel Hn Hf Hb.
  destruct (fallback_len_counts_items A more next it n fuel Hn Hf)
    as [_ Hl].
  unfold fallback___end__.
  rewrite (Hl Hb), (run_to_end_runs_out more next it n Hn fuel 0 Hf).
  simpl. unfold fallback___forward__. now rewrite Nat2Z.id.
Qed.

Lemma fallback_end_branches_agree_witness :
  fallback___end__ true list___more__
    (fallback___len__ list___more__ list___next__) list___next__
    (fallback___forward__ list___next__) 4 (list_iter_of [7; 8; 9])
  = __end__ 4 (list_iter_of [7; 8; 9]).
Proof.
  apply (fallback_end_branches_agree _ list___more__ list___next__
           (list_iter_of [7; 8; 9]) 3%nat 4%nat).
  - repeat constructor.
  - lia.
  - reflexivity.
Defined.

(** X6: the fallback [-=] undoes the fallback [+=] when [--] undoes
    [++] at each of the positions passed. *)
Theorem fallback_rewind_undoes_forward :
  forall (A : Type) (next prev : A -> A) (it : A) (n : Z),
    (forall k, (k < Z.to_nat n)%nat ->
       prev (next (repeat_op next k it)) = repeat_op next k it) ->
    fallback___rewind__ prev n (fallback___forward__ next n it) = it.
Proof.
  intros A next prev it n Hinv.
  unfold fallback___rewind__, fallback___forward__.
  now apply fallback_rewind_forward.
Qed.

Lemma fallback_rewind_undoes_forward_witness :
  __rewind__ 2 (__forward__ 2 (list_iter_of [7; 8; 9]))
  = list_iter_of [7; 8; 9].
Proof.
  apply (fallback_rewind_undoes_forward _ list___next__ list___prev__
           (list_iter_of [7; 8; 9]) 2).
  intros [|[|k]] Hk; [reflexivity | reflexivity |].
  exfalso. revert Hk. vm_compute. lia.
Defined.

(** ** [hb_iota]: random access against stepping *)

Lemma iota_advance_wraps (k : nat) (it : hb_iota_iter_t) :
  0 <= iota_v it < UINT_MODULUS ->
  advance k it
  = mk_iota_iter (wrap (iota_v it + Z.of_nat k * iota_step it))
                 (iota_end it) (iota_step it).
Proof.
  intros Hv. unfold advance.
  induction k as [|k IH].
  - destruct it as [v e s]; simpl in *. f_equal.
    rewrite Z.add_0_r. symmetry. now apply wrap_small.
  - rewrite repeat_op_succ_r, IH.
    cbn -[Z.mul Z.add Z.of_nat wrap]. unfold iota___next__.
    cbn -[Z.mul Z.add Z.of_nat wrap]. f_equal.
    rewrite wrap_add_l. f_equal. lia.
Qed.

(** X7: on an iota whose current value is a valid [unsigned], the
    random-access operations agree with stepping: [+= n] lands where [n]
    increments do, [[n]] reads the item found there, [-= n] undoes
    [+= n] and [--] undoes [++], wrap-around included. *)
Theorem iota_random_access_agrees_with_stepping :
  forall (it : hb_iota_iter_t) (n : Z),
    0 <= iota_v it < UINT_MODULUS -> 0 <= n ->
    __forward__ n it = advance (Z.to_nat n) it
    /\ __item_at__ n it = __item__ (advance (Z.to_nat n) it)
    /\ __rewind__ n (__forward__ n it) = it
    /\ __prev__ (__next__ it) = it.
Proof.
  intros it n Hv Hn.
  assert (Hf : __forward__ n it = advance (Z.to_nat n) it).
  { rewrite iota_advance_wraps by exact Hv.
    rewrite Z2Nat.id by exact Hn.
    cbn -[Z.mul Z.add wrap]. unfold iota___forward__.
    now rewrite wrap_add_r. }
  split; [exact Hf|]. split; [now rewrite <- Hf|].
  destruct it as [v e s]; cbn -[Z.mul Z.add Z.sub wrap] in *.
  unfold iota___rewind__, iota___forward__, iota___prev__, iota___next__;
    cbn -[Z.mul Z.add Z.sub wrap].
  split; f_equal.
  - rewrite wrap_sub_r, wrap_add_r. unfold wrap.
    rewrite Zminus_mod_idemp_l.
    replace (v + n * s - n * s) with v by lia. now apply Z.mod_small.
  - unfold wrap. rewrite Zminus_mod_idemp_l.
    replace (v + s - s) with v by lia. now apply Z.mod_small.
Qed.

Lemma iota_random_access_agrees_with_stepping_witness :
  __forward__ 3 (hb_iota 4294967290 4294967295 5)
  = advance 3 (hb_iota 4294967290 4294967295 5)
  /\ __item_at__ 3 (hb_iota 4294967290 4294967295 5) = 9.
Proof.
  destruct (iota_random_access_agrees_with_stepping
              (hb_iota 4294967290 4294967295 5) 3) as (Hf & Hi & _).
  - split; [discriminate | reflexivity].
  - lia.
  - split; [exact Hf | reflexivity].
Defined.

(** ** [hb_sink], [hb_copy] *)

Section sink_facts.
Context {Iter T : Type} {I : hb_iter_t Iter T}.

Lemma hb_sink_sound (fuel : nat) :
  forall (it : Iter) (s r : list T),
    hb_sink fuel s it = Some r ->
    exists n, exhausts_in it n /\ (n < fuel)%nat /\ r = s ++ items n it.
Proof.
  unfold exhausts_in.
  induction fuel as [|fuel IH]; intros it s r; simpl; [discriminate|].
  destruct (__more__ it) eqn:Hm.
  - intros Hr. destruct (IH _ _ _ Hr) as (n & Hn & Hf & ->).
    exists (S n). repeat split; [now constructor | lia |].
    simpl. now rewrite <- app_assoc.
  - intros [= <-]. exists 0%nat.
    repeat split; [now constructor | lia | now rewrite app_nil_r].
Qed.

Lemma hb_reduce_snoc_is_sink (fuel : nat) :
  forall (it : Iter) (s : list T) t,
    option_map fst (hb_reduce_run fuel (fun acc x => acc ++ [x]) s it t)
    = hb_sink fuel s it.
Proof.
  induction fuel as [|fuel IH]; intros it s t; simpl; [reflexivity|].
  destruct (__more__ it); [apply IH | reflexivity].
Qed.
End sink_facts.

(** X8: [hb_sink] (and so [hb_copy]) over a finite sequence keeps what
    the sink already holds and appends the remaining items in traversal
    order; it is the reduction by "append one item"; and whenever it
    returns at all, it has walked the sequence to exhaustion. *)
Theorem sink_appends_items_in_order :
  forall (Iter T : Type) (I : hb_iter_t Iter T) (it : Iter) (s : list T)
         (fuel : nat),
    (forall n, exhausts_in it n -> (n < fuel)%nat ->
       hb_sink fuel s it = Some (s ++ items n it)
       /\ hb_copy fuel it s = Some (s ++ items n it))
    /\ hb_reduce fuel (fun acc x => acc ++ [x]) s it = hb_sink fuel s it
    /\ (forall r, hb_sink fuel s it = Some r ->
          exists n, exhausts_in it n /\ (n < fuel)%nat
                    /\ r = s ++ items n it).
Proof.
  intros Iter T I it s fuel. repeat split.
  - now apply hb_sink_items.
  - unfold hb_copy. now apply hb_sink_items.
  - apply hb_reduce_snoc_is_sink.
  - apply hb_sink_sound.
Qed.

Lemma sink_appends_items_in_order_witness :
  hb_copy 5 (hb_iota 0 10 3) [100] = Some [100; 0; 3; 6; 9].
Proof.
  destruct (sink_appends_items_in_order _ _ _ (hb_iota 0 10 3) [100] 5%nat)
    as (Hfin & _).
  destruct (Hfin 4%nat) as [_ Hc].
  - repeat constructor.
  - lia.
  - exact Hc.
Defined.

(** ** [hb_all], [hb_any], [hb_none] as decisions *)

Lemma forallb_negb_existsb {X : Type} (q : X -> bool) (l : list X) :
  forallb q l = negb (existsb (fun x => negb (q x)) l).
Proof.
  induction l as [|x l IH]; [reflexivity|]. simpl.
  rewrite IH. now destruct (q x).
Qed.

Lemma hb_any_run_existsb {Iter T B : Type} {I : hb_iter_t Iter T}
      (p : B -> bool) (f : T -> B) (it : Iter) (n : nat) :
  exhausts_in it n ->
  forall fuel t, (n < fuel)%nat ->
    option_map fst (hb_any_run fuel p f it t)
    = Some (existsb (fun x => p (f x)) (items n it)).
Proof.
  unfold exhausts_in.
  induction 1 as [it Hm | it n Hm Hn IH]; intros fuel t Hf;
    one_round fuel; rewrite Hm; [reflexivity|].
  unfold hb_match, hb_get.
  destruct (p (f (__item__ it))); [reflexivity|].
  apply IH. lia.
Qed.

(** X9: over a finite sequence [hb_any] decides whether some item
    satisfies the predicate, [hb_all] whether every item does and
    [hb_none] whether no item does; over an exhausted sequence they
    answer false, true and true. *)
Theorem any_all_none_decide :
  forall (Iter T B : Type) (I : hb_iter_t Iter T)
         (p : B -> bool) (f : T -> B) (it : Iter) (n fuel : nat),
    exhausts_in it n -> (n < fuel)%nat ->
    hb_any fuel p f it = Some (existsb (fun x => p (f x)) (items n it))
    /\ hb_all fuel p f it = Some (forallb (fun x => p (f x)) (items n it))
    /\ hb_none fuel p f it
       = Some (negb (existsb (fun x => p (f x)) (items n it))).
Proof.
  intros Iter T B I p f it n fuel Hn Hf.
  assert (Hany : forall q : B -> bool,
             hb_any fuel q f it
             = Some (existsb (fun x => q (f x)) (items n it))).
  { intros q. unfold hb_any. now apply hb_any_run_existsb. }
  assert (Hnone : forall q : B -> bool,
             hb_none fuel q f it
             = Some (negb (existsb (fun x => q (f x)) (items n it)))).
  { intros q. unfold hb_none. rewrite hb_none_run_any_run.
    specialize (Hany q). unfold hb_any in Hany.
    destruct (hb_any_run fuel q f it no_trace) as [[b t]|];
      simpl in *; congruence. }
  repeat split; [apply Hany | | apply Hnone].
  unfold hb_all. rewrite hb_all_run_none_run.
  fold (hb_none fuel (negate p) f it). rewrite Hnone.
  now rewrite forallb_negb_existsb.
Qed.

Lemma any_all_none_decide_witness :
  hb_any 1 Z.even hb_identity (list_iter_of []) = Some false
  /\ hb_all 1 Z.even hb_identity (list_iter_of []) = Some true
  /\ hb_none 1 Z.even hb_identity (list_iter_of []) = Some true.
Proof.
  apply (any_all_none_decide _ _ _ _ Z.even hb_identity
           (list_iter_of []) 0%nat 1%nat).
  - repeat constructor.
  - lia.
Defined.

(** ** [hb_filter], walked forward *)

Section filter_forward_facts.
Context {Iter A B : Type} {I : hb_iter_t Iter A}.
Variable p : B -> bool.
Variable f : A -> B.

Let pf (x : A) : bool := p (f x).

(** The skipping loop drops only items the predicate rejects. *)
Lemma filter_skip_keeps_matches (it : Iter) (n : nat) :
  exhausts_in it n ->
  forall fuel, (n < fuel)%nat ->
    exists k it',
      (k <= n)%nat
      /\ filter_skip fuel p f it = Some it'
      /\ exhausts_in it' (n - k)
      /\ filter pf (items n it) = filter pf (items (n - k) it')
      /\ ((k < n)%nat -> pf (__item__ it') = true).
Proof.
  unfold exhausts_in.
  induction 1 as [it Hm | it n Hm Hn IH]; intros fuel Hf;
    one_round fuel; rewrite Hm; simpl.
  - exists 0%nat, it. repeat split; [lia | now constructor | lia].
  - unfold hb_has, hb_get.
    destruct (p (f (__item__ it))) eqn:Hp; simpl.
    + exists 0%nat, it. repeat split; [lia | now constructor | auto].
    + destruct (IH fuel ltac:(lia)) as (k & it' & Hk & Hs & Hex & Hfl & Hy).
      exists (S k), it'. repeat split.
      * lia.
      * exact Hs.
      * exact Hex.
      * unfold pf at 1. rewrite Hp. exact Hfl.
      * intros Hlt. apply Hy. lia.
Qed.

(** Sinking a filter that stands on a match (or is exhausted). *)
Lemma hb_sink_filter_from_match (fuel : nat) :
  forall (it : Iter) (m : nat) (s : list A),
    exhausts_in it m ->
    ((0 < m)%nat -> pf (__item__ it) = true) ->
    (m < fuel)%nat ->
    hb_sink_filter fuel s (mk_filter_iter it p f)
    = Some (s ++ filter pf (items m it)).
Proof.
  induction fuel as [|fuel IH]; intros it m s Hex Hinv Hf; [lia|].
  simpl. unfold filter___more__, filter___next__, filter___item__; simpl.
  inversion Hex as [it0 Hm | it0 m' Hm Hnext]; subst; rewrite Hm.
  - simpl. now rewrite app_nil_r.
  - destruct (filter_skip_keeps_matches (__next__ it) m' Hnext fuel
                ltac:(lia)) as (k & it' & Hk & Hs & Hex' & Hfl & Hy).
    rewrite Hs. simpl.
    rewrite (IH it' (m' - k)%nat); try assumption; try lia.
    + rewrite Hinv by lia. rewrite Hfl, <- app_assoc. reflexivity.
    + intros Hpos. apply Hy. lia.
Qed.
End filter_forward_facts.

(** X10: walked forward, a filter over a finite sequence yields exactly
    the items [x] of the sequence with [pred (proj (x))], in their
    original order: constructing it and sinking it appends
    [List.filter] of the input's items to the sink. *)
Theorem filter_forward_yields_matching_items :
  forall (Iter A B : Type) (I : hb_iter_t Iter A)
         (pred : B -> bool) (proj : A -> B) (it : Iter) (n fuel : nat)
         (s : list A),
    exhausts_in it n -> (n < fuel)%nat ->
    exists flt,
      hb_filter fuel pred proj it = Some flt
      /\ hb_sink_filter fuel s flt
         = Some (s ++ filter (fun x => pred (proj x)) (items n it)).
Proof.
  intros Iter A B I pred proj it n fuel s Hn Hf.
  destruct (filter_skip_keeps_matches pred proj it n Hn fuel Hf)
    as (k & it' & Hk & Hs & Hex & Hfl & Hy).
  exists (mk_filter_iter it' pred proj). split.
  - unfold hb_filter, new_hb_filter_iter_t. now rewrite Hs.
  - rewrite (hb_sink_filter_from_match pred proj fuel it' (n - k)%nat);
      try assumption; try lia.
    + now rewrite Hfl.
    + intros Hpos. apply Hy. lia.
Qed.

Lemma filter_forward_yields_matching_items_witness :
  exists flt,
    hb_filter 11 Z.odd hb_identity (hb_iota 0 10 1) = Some flt
    /\ hb_sink_filter 11 [] flt = Some [1; 3; 5; 7; 9].
Proof.
  destruct (filter_forward_yields_matching_items _ _ _ _
              Z.odd hb_identity (hb_iota 0 10 1) 10%nat 11%nat [])
    as (flt & Hc & Hs).
  - repeat constructor.
  - lia.
  - exists flt. split; [exact Hc | exact Hs].
Defined.

(** ** [hb_unzip] *)

Lemma hb_unzip_items {Iter T1 T2 : Type} {I : hb_iter_t Iter (T1 * T2)}
      (it : Iter) (n : nat) :
  exhausts_in it n ->
  forall fuel s1 s2, (n < fuel)%nat ->
    hb_unzip fuel s1 s2 it
    = Some (s1 ++ map fst (items n it), s2 ++ map snd (items n it)).
Proof.
  unfold exhausts_in.
  induction 1 as [it Hm | it n Hm Hn IH]; intros fuel s1 s2 Hf;
    one_round fuel; rewrite Hm.
  - now rewrite !app_nil_r.
  - rewrite IH by lia. now rewrite <- !app_assoc.
Qed.

Lemma zip_items_fst_snd {A B TA TB : Type}
      {IA : hb_iter_t A TA} {IB : hb_iter_t B TB} (k : nat) :
  forall (a : A) (b : B),
    map fst (items k (hb_zip a b)) = items k a
    /\ map snd (items k (hb_zip a b)) = items k b.
Proof.
  induction k as [|k IH]; intros a b; [split; reflexivity|].
  destruct (IH (__next__ a) (__next__ b)) as [Hf Hs].
  split; simpl; f_equal; assumption.
Qed.

(** X11: unzip undoes zip.  Unzipping the zip of two finite sequences
    into two sinks appends to the first the items of the first input and
    to the second the items of the second, each cut to the length of the
    shorter input. *)
Theorem unzip_zip_round_trip :
  forall (A B TA TB : Type) (IA : hb_iter_t A TA) (IB : hb_iter_t B TB)
         (a : A) (b : B) (n m fuel : nat) (s1 : list TA) (s2 : list TB),
    exhausts_in a n -> exhausts_in b m -> (Nat.min n m < fuel)%nat ->
    hb_unzip fuel s1 s2 (hb_zip a b)
    = Some (s1 ++ items (Nat.min n m) a, s2 ++ items (Nat.min n m) b).
Proof.
  intros A B TA TB IA IB a b n m fuel s1 s2 Ha Hb Hf.
  rewrite (hb_unzip_items (hb_zip a b) (Nat.min n m)
             (zip_exhausts a b n m Ha Hb) fuel s1 s2 Hf).
  destruct (zip_items_fst_snd (Nat.min n m) a b) as [-> ->].
  reflexivity.
Qed.

Lemma unzip_zip_round_trip_witness :
  hb_unzip 3 [] [] (hb_zip (hb_iota 5 7 1) (list_iter_of [10; 20; 30]))
  = Some ([5; 6], [10; 20]).
Proof.
  change (hb_unzip 3 [] []
            (hb_zip (hb_iota 5 7 1) (list_iter_of [10; 20; 30]))
          = Some ([] ++ items (Nat.min 2 3) (hb_iota 5 7 1),
                  [] ++ items (Nat.min 2 3) (list_iter_of [10; 20; 30]))).
  apply unzip_zip_round_trip.
  - repeat constructor.
  - repeat constructor.
  - simpl. lia.
Defined.

(** ** Range-based [for]: comparing against [end()] *)

(** X12: for inputs with the same number of items whose own [!=]
    compares a position with items left unequal to their [end()] and the
    exhausted position equal to it, the zip compares unequal to its
    [end()] at each of its items and equal to it once exhausted; a
    range-based [for] over it visits every pair and stops. *)
Theorem zip_equal_lengths_reach_end :
  forall (A B TA TB : Type) (IA : hb_iter_t A TA) (IB : hb_iter_t B TB)
         (NA : hb_iter_ne A) (NB : hb_iter_ne B)
         (a : A) (b : B) (n fuel : nat) (ea : A) (eb : B),
    exhausts_in a n -> exhausts_in b n ->
    __end__ fuel a = Some ea -> __end__ fuel b = Some eb ->
    (forall k, (k < n)%nat -> ne (advance k a) ea = true) ->
    ne (advance n a) ea = false ->
    ne (advance n b) eb = false ->
    exists e,
      __end__ fuel (hb_zip a b) = Some e
      /\ (forall k, (k < n)%nat -> ne (advance k (hb_zip a b)) e = true)
      /\ ne (advance n (hb_zip a b)) e = false
      /\ __more__ (advance n (hb_zip a b)) = false.
Proof.
  intros A B TA TB IA IB NA NB a b n fuel ea eb Ha Hb Hea Heb Hlt Hna Hnb.
  exists (hb_zip ea eb). repeat split.
  - simpl. now rewrite Hea, Heb.
  - intros k Hk. rewrite zip_advance. simpl.
    rewrite (Hlt k Hk). reflexivity.
  - rewrite zip_advance. simpl. now rewrite Hna, Hnb.
  - pose proof (zip_exhausts a b n n Ha Hb) as Hz.
    rewrite Nat.min_id in Hz.
    exact (runs_out_exhausted _ _ _ n Hz).
Qed.

Lemma zip_equal_lengths_reach_end_witness :
  let z := hb_zip (hb_enumerate (hb_iota 0 2 1))
                  (hb_enumerate (hb_iota 5 7 1)) in
  exists e, __end__ 1 z = Some e
            /\ ne (advance 1 z) e = true
            /\ ne (advance 2 z) e = false.
Proof.
  intros z.
  destruct (zip_equal_lengths_reach_end _ _ _ _ _ _ _ _
              (hb_enumerate (hb_iota 0 2 1)) (hb_enumerate (hb_iota 5 7 1))
              2%nat 1%nat
              (mk_enumerate_iter 2 (mk_iota_iter 2 2 1))
              (mk_enumerate_iter 2 (mk_iota_iter 7 7 1)))
    as (e & He & Hlt & Heq & _).
  - repeat constructor.
  - repeat constructor.
  - reflexivity.
  - reflexivity.
  - intros [|[|k]] Hk; [reflexivity | reflexivity | lia].
  - reflexivity.
  - reflexivity.
  - exists e. split; [exact He | split; [apply Hlt; lia | exact Heq]].
Defined.

(** X13: over a random-access input whose [len()] is its number of
    items [n < 2^32] and whose [+= n] lands where [n] increments do, the
    [end()] of enumerate is the position that [n] increments of the
    enumerate iterator reach, index [n] included, and that position is
    exhausted. *)
Theorem enumerate_random_access_end_is_exhausted :
  forall (Iter T : Type) (I : hb_iter_t Iter T) (it : Iter) (n fuel : nat),
    is_random_access_iterator Iter = true ->
    exhausts_in it n -> Z.of_nat n < UINT_MODULUS ->
    __len__ fuel it = Some (Z.of_nat n) ->
    __forward__ (Z.of_nat n) it = advance n it ->
    __end__ fuel (hb_enumerate it) = Some (advance n (hb_enumerate it))
    /\ enum_i (advance n (hb_enumerate it)) = Z.of_nat n
    /\ __more__ (advance n (hb_enumerate it)) = false.
Proof.
  intros Iter T I it n fuel Hra Hn Hb Hlen Hfw.
  unfold hb_enumerate.
  rewrite enumerate_advance by lia.
  repeat split.
  - simpl. unfold enumerate___end__, enumerate___len__,
      enumerate___forward__. simpl.
    rewrite Hra, Hlen. simpl. rewrite Hfw, wrap_small by lia.
    reflexivity.
  - simpl. unfold enumerate___more__. simpl.
    exact (runs_out_exhausted _ _ it n Hn).
Qed.

Lemma enumerate_random_access_end_is_exhausted_witness :
  __end__ 0 (hb_enumerate (hb_iota 0 10 3))
  = Some (advance 4 (hb_enumerate (hb_iota 0 10 3))).
Proof.
  destruct (enumerate_random_access_end_is_exhausted _ _ _
              (hb_iota 0 10 3) 4%nat 0%nat) as (He & _).
  - reflexivity.
  - repeat constructor.
  - reflexivity.
  - reflexivity.
  - reflexivity.
  - exact He.
Defined.

(** ** [end_for] *)

(** X14: normalising is idempotent.  Under the preconditions of C3 the
    bound [end_for] computes is left unchanged by normalising it again,
    and the iterator built from that bound as both start and end, which
    is what [__end__] constructs, is the exhausted position that forward
    stepping reaches. *)
Theorem end_for_idempotent :
  forall start end_ step,
    0 <= start <= end_ -> end_ < UINT_MODULUS -> 0 < step ->
    end_ + (start - end_) mod step < UINT_MODULUS ->
    let e := end_for start end_ step in
    let n := Z.to_nat ((e - start) / step) in
    end_for start e step = e
    /\ new_hb_iota_iter_t e e step = advance n (hb_iota start end_ step)
    /\ __more__ (new_hb_iota_iter_t e e step) = false.
Proof.
  intros start end_ step Hse He Hs Hb e n.
  assert (Hen : e = end_ + (start - end_) mod step)
    by (apply end_for_normalizes; assumption).
  destruct (iota_bound_multiple start end_ step) as [Hmul Hn];
    try assumption.
  rewrite <- Hen in Hmul, Hn.
  assert (Hidem : end_for start e step = e).
  { unfold end_for. rewrite wrap_small by lia.
    rewrite Hmul, Z.mod_mul by lia. reflexivity. }
  assert (Hself : end_for e e step = e).
  { unfold end_for. rewrite Z.sub_diag. reflexivity. }
  repeat split.
  - exact Hidem.
  - unfold n. rewrite iota_advance; try assumption.
    + unfold new_hb_iota_iter_t. rewrite Hself, <- Hen. f_equal.
      rewrite Z2Nat.id by exact Hn. lia.
    + rewrite <- Hen. rewrite Z2Nat.id by exact Hn. lia.
  - unfold new_hb_iota_iter_t. rewrite Hself. simpl.
    unfold iota___more__. simpl. now rewrite Z.eqb_refl.
Qed.

Lemma end_for_idempotent_witness :
  end_for 0 (end_for 0 10 3) 3 = end_for 0 10 3.
Proof.
  destruct (end_for_idempotent 0 10 3) as (Hi & _).
  - lia.
  - reflexivity.
  - lia.
  - reflexivity.
  - exact Hi.
Defined.

(** For every fuel bound [hb_none] negates [hb_any] and [hb_all] is
    [hb_none] of the negated predicate. *)
Lemma none_any_negation_for_fuel {Iter T B : Type} {I : hb_iter_t Iter T}
      (p : B -> bool) (f : T -> B) (it : Iter) (fuel : nat) :
  hb_none fuel p f it = option_map negb (hb_any fuel p f it)
  /\ hb_all fuel p f it = hb_none fuel (negate p) f it.
Proof.
  unfold hb_none, hb_any, hb_all. split.
  - rewrite hb_none_run_any_run.
    now destruct (hb_any_run fuel p f it no_trace) as [[b t]|].
  - now rewrite hb_all_run_none_run.
Qed.

(** ** Pipelines *)

(** X15: a projection can be applied by the consumer or by a map in
    front of it.  For every fuel bound, reducing a mapped sequence is
    reducing the sequence with the projection folded into the operator,
    and [hb_any], [hb_all], [hb_none] with projection [f] answer as they
    do over the sequence mapped by [f] with the identity projection. *)
Theorem projection_moves_into_map :
  forall (Iter A B AccuT : Type) (I : hb_iter_t Iter A)
         (f : A -> B) (op : AccuT -> B -> AccuT) (init : AccuT)
         (p : B -> bool) (fuel : nat) (it : Iter),
    hb_reduce fuel op init (hb_map f it)
    = hb_reduce fuel (fun acc x => op acc (f x)) init it
    /\ hb_any fuel p hb_identity (hb_map f it) = hb_any fuel p f it
    /\ hb_all fuel p hb_identity (hb_map f it) = hb_all fuel p f it
    /\ hb_none fuel p hb_identity (hb_map f it) = hb_none fuel p f it.
Proof.
  intros Iter A B AccuT I f op init p fuel it.
  assert (Hany : forall q : B -> bool,
             hb_any fuel q hb_identity (hb_map f it) = hb_any fuel q f it).
  { intros q. unfold hb_any. f_equal. generalize no_trace. revert it.
    induction fuel as [|k IH]; intros it t; [reflexivity|].
    simpl. destruct (__more__ it); [|reflexivity].
    unfold hb_match, hb_get, hb_identity.
    destruct (q (f (__item__ it))); [reflexivity|]. apply IH. }
  assert (Hnone : forall q : B -> bool,
             hb_none fuel q hb_identity (hb_map f it) = hb_none fuel q f it).
  { intros q.
    destruct (none_any_negation_for_fuel q hb_identity (hb_map f it) fuel)
      as [-> _].
    destruct (none_any_negation_for_fuel q f it fuel) as [-> _].
    now rewrite Hany. }
  repeat split.
  - clear Hany Hnone. unfold hb_reduce. f_equal. generalize no_trace.
    revert init it.
    induction fuel as [|k IH]; intros init it t; [reflexivity|].
    simpl. destruct (__more__ it); [|reflexivity]. apply IH.
  - apply Hany.
  - destruct (none_any_negation_for_fuel p hb_identity (hb_map f it) fuel)
      as [_ ->].
    destruct (none_any_negation_for_fuel p f it fuel) as [_ ->].
    apply Hnone.
  - apply Hnone.
Qed.

(** ** [hb_iota] at [<int, int>] *)

Lemma to_int_small (x : Z) : INT_MIN <= x <= INT_MAX -> to_int x = x.
Proof.
  unfold to_int, INT_MIN, INT_MAX, UINT_MODULUS. intros Hx.
  rewrite Z.mod_small; lia.
Qed.

Lemma int_range_facts : INT_MIN < 0 /\ 0 < INT_MAX /\ INT_MAX < UINT_MODULUS.
Proof. repeat split. Qed.

(** The least bound [e >= end_] with [e - start] a multiple of [step],
    for integers of either sign. *)
Lemma bound_multiple_Z (start end_ step : Z) :
  start <= end_ -> 0 < step ->
  let e := end_ + (start - end_) mod step in
  e - start = (e - start) / step * step /\ 0 <= (e - start) / step.
Proof.
  intros Hse Hs e.
  pose proof (iota_slack start end_ step Hs) as Hslack.
  assert (Hm : (e - start) mod step = 0).
  { unfold e.
    replace (end_ + (start - end_) mod step - start)
      with ((start - end_) mod step - (start - end_)) by lia.
    rewrite Zminus_mod, Z.mod_mod, Z.sub_diag by lia.
    apply Z.mod_0_l; lia. }
  split.
  - pose proof (Z.div_mod (e - start) step ltac:(lia)). lia.
  - apply Z.div_pos; unfold e; lia.
Qed.

Lemma bound_least_Z (start end_ step x : Z) :
  start <= end_ -> 0 < step ->
  end_ <= x -> (x - start) mod step = 0 ->
  end_ + (start - end_) mod step <= x.
Proof.
  intros Hse Hs Hx Hm.
  pose proof (iota_slack start end_ step Hs) as Hslack.
  destruct (bound_multiple_Z start end_ step Hse Hs) as [He Hn].
  cbv zeta in He, Hn.
  set (e := end_ + (start - end_) mod step) in *.
  pose proof (Z.div_mod (x - start) step ltac:(lia)) as Hq.
  rewrite Hm in Hq.
  destruct (Z_lt_le_dec x e) as [Hxe|]; [exfalso | assumption].
  set (q := (x - start) / step) in *.
  set (n := (e - start) / step) in *.
  assert (q < n) by nia.
  assert (step * (q + 1) <= n * step) by nia.
  lia.
Qed.

Section iota_int_in_range.
Variables start end_ step : Z.
Hypothesis start_le_end : INT_MIN <= start <= end_.
Hypothesis step_range : 0 < step <= INT_MAX.
Hypothesis bound_in_range : end_ + (start - end_) mod step <= INT_MAX.
Hypothesis span_in_range :
  end_ + (start - end_) mod step - start <= INT_MAX.

Let e : Z := end_ + (start - end_) mod step.
Let n : Z := (e - start) / step.

Lemma end_for_int_normalizes : end_for_int start end_ step = e.
Proof.
  pose proof (iota_slack start end_ step ltac:(lia)) as Hslack.
  pose proof int_range_facts as Hrange.
  unfold end_for_int, e in *.
  rewrite (to_int_small (end_ - start)) by lia.
  rewrite Z.rem_mod_nonneg by lia.
  replace (start - end_) with (- (end_ - start)) in * by lia.
  rewrite opp_mod_step in * by lia.
  destruct ((end_ - start) mod step =? 0) eqn:E; [lia|].
  rewrite (to_int_small (step - _)) by lia.
  rewrite to_int_small by lia. lia.
Qed.

Lemma iota_int_advance (k : nat) :
  Z.of_nat k <= n ->
  advance k (hb_iota_int start end_ step)
  = mk_iota_int_iter (start + Z.of_nat k * step) e step.
Proof.
  destruct (bound_multiple_Z start end_ step) as [He Hn]; try lia.
  fold e n in He, Hn.
  pose proof int_range_facts as Hrange.
  induction k as [|k IH]; intros Hk.
  - unfold advance; simpl. unfold hb_iota_int, new_hb_iota_int_iter_t.
    rewrite end_for_int_normalizes. f_equal. lia.
  - unfold advance in *. rewrite repeat_op_succ_r, IH by lia.
    cbn -[Z.mul Z.add Z.of_nat to_int]. unfold iota_int___next__.
    cbn -[Z.mul Z.add Z.of_nat to_int]. f_equal.
    rewrite Nat2Z.inj_succ in *.
    rewrite to_int_small; [ring|]. unfold e in *. nia.
Qed.

Lemma iota_int_exhausts :
  exhausts_in (hb_iota_int start end_ step) (Z.to_nat n).
Proof.
  destruct (bound_multiple_Z start end_ step) as [He Hn]; try lia.
  fold e n in He, Hn.
  apply runs_out_intro.
  - intros k Hk. fold (advance k (hb_iota_int start end_ step)).
    rewrite iota_int_advance by lia. simpl. unfold iota_int___more__; simpl.
    apply negb_true_iff, Z.eqb_neq. nia.
  - fold (advance (Z.to_nat n) (hb_iota_int start end_ step)).
    rewrite iota_int_advance by lia. simpl. unfold iota_int___more__; simpl.
    apply negb_false_iff, Z.eqb_eq. lia.
Qed.

Lemma iota_int_len_exact (k : nat) (fuel : nat) :
  Z.of_nat k <= n ->
  let itk := advance k (hb_iota_int start end_ step) in
  __len__ fuel itk = Some ((e - iota_int_v itk) / step)
  /\ (e - iota_int_v itk) mod step = 0
  /\ (e - iota_int_v itk) / step = n - Z.of_nat k.
Proof.
  intros Hk itk. subst itk.
  destruct (bound_multiple_Z start end_ step) as [He Hn]; try lia.
  fold e n in He, Hn.
  pose proof int_range_facts as Hrange.
  rewrite iota_int_advance by exact Hk. simpl. unfold iota_int___len__; simpl.
  assert (Hd : e - (start + Z.of_nat k * step) = (n - Z.of_nat k) * step)
    by lia.
  rewrite to_int_small by (unfold e in *; nia).
  rewrite Hd. rewrite Z.quot_div_nonneg by nia.
  rewrite Z.mod_mul, Z.div_mul by lia.
  rewrite wrap_small by (unfold e in *; nia). auto.
Qed.

Lemma iota_int_items :
  items (Z.to_nat n) (hb_iota_int start end_ step)
  = map (fun k => start + Z.of_nat k * step) (seq 0 (Z.to_nat n)).
Proof.
  rewrite items_nth. apply map_ext_in. intros k Hk.
  apply in_seq in Hk. rewrite iota_int_advance by lia. reflexivity.
Qed.

Lemma iota_int_items_below_end :
  Forall (fun x => start <= x < end_)
         (items (Z.to_nat n) (hb_iota_int start end_ step)).
Proof.
  pose proof (iota_slack start end_ step ltac:(lia)) as Hslack.
  destruct (bound_multiple_Z start end_ step) as [He Hn]; try lia.
  fold e n in He, Hn.
  rewrite iota_int_items. apply Forall_forall. intros x Hx.
  apply in_map_iff in Hx. destruct Hx as (k & <- & Hk).
  apply in_seq in Hk. unfold e in He. nia.
Qed.

Lemma iota_int_items_complete (k : Z) :
  0 <= k -> start + k * step < end_ ->
  In (start + k * step) (items (Z.to_nat n) (hb_iota_int start end_ step)).
Proof.
  intros Hk Hlt.
  pose proof (iota_slack start end_ step ltac:(lia)) as Hslack.
  destruct (bound_multiple_Z start end_ step) as [He Hn]; try lia.
  fold e n in He, Hn.
  rewrite iota_int_items. apply in_map_iff. exists (Z.to_nat k). split.
  - now rewrite Z2Nat.id.
  - apply in_seq. unfold e in He. nia.
Qed.
End iota_int_in_range.

(** C3 (amended): for [hb_iota (start, end, step)] over [unsigned] or
    over [int], with [start <= end], [0 < step] and the normalised bound
    [e = end + (start - end) mod step] representable in the type (below
    [2^32] for [unsigned]; at most [INT_MAX], and at most [INT_MAX] away
    from [start], for [int]): the stored bound is [e], the least value
    [>= end] with [e - start] a multiple of [step]; at every position
    reached [len()] is [(e - v) / step] with no remainder; stepping
    forward is exhausted after exactly [(e - start) / step] increments,
    standing on [e]; the items are [start + k * step] in order, each
    below [end], and every such value below [end] is among them.  In
    particular [iota (0, 10, 3)] stores 12, has length 4 and yields
    [0, 3, 6, 9], in either type. *)
Theorem iota_end_normalized :
  (forall start end_ step,
      0 <= start <= end_ -> end_ < UINT_MODULUS -> 0 < step ->
      end_ + (start - end_) mod step < UINT_MODULUS ->
      let e := end_ + (start - end_) mod step in
      let it := hb_iota start end_ step in
      let n := Z.to_nat ((e - start) / step) in
      (iota_end it = e /\ end_ <= e /\ (e - start) mod step = 0
       /\ forall x, end_ <= x -> (x - start) mod step = 0 -> e <= x)
      /\ (forall k fuel, (k <= n)%nat ->
            __len__ fuel (advance k it)
            = Some ((e - iota_v (advance k it)) / step)
            /\ (e - iota_v (advance k it)) mod step = 0
            /\ (e - iota_v (advance k it)) / step = Z.of_nat (n - k))
      /\ exhausts_in it n
      /\ iota_v (advance n it) = e
      /\ (forall fuel, (n < fuel)%nat ->
            hb_sink fuel [] it = Some (items n it))
      /\ items n it = map (fun k => start + Z.of_nat k * step) (seq 0 n)
      /\ Forall (fun x => start <= x < end_) (items n it)
      /\ (forall k, 0 <= k -> start + k * step < end_ ->
            In (start + k * step) (items n it)))
  /\ (forall start end_ step,
      INT_MIN <= start <= end_ -> 0 < step <= INT_MAX ->
      end_ + (start - end_) mod step <= INT_MAX ->
      end_ + (start - end_) mod step - start <= INT_MAX ->
      let e := end_ + (start - end_) mod step in
      let it := hb_iota_int start end_ step in
      let n := Z.to_nat ((e - start) / step) in
      (iota_int_end it = e /\ end_ <= e /\ (e - start) mod step = 0
       /\ forall x, end_ <= x -> (x - start) mod step = 0 -> e <= x)
      /\ (forall k fuel, (k <= n)%nat ->
            __len__ fuel (advance k it)
            = Some ((e - iota_int_v (advance k it)) / step)
            /\ (e - iota_int_v (advance k it)) mod step = 0
            /\ (e - iota_int_v (advance k it)) / step = Z.of_nat (n - k))
      /\ exhausts_in it n
      /\ iota_int_v (advance n it) = e
      /\ (forall fuel, (n < fuel)%nat ->
            hb_sink fuel [] it = Some (items n it))
      /\ items n it = map (fun k => start + Z.of_nat k * step) (seq 0 n)
      /\ Forall (fun x => start <= x < end_) (items n it)
      /\ (forall k, 0 <= k -> start + k * step < end_ ->
            In (start + k * step) (items n it)))
  /\ (iota_end (hb_iota 0 10 3) = 12
      /\ __len__ 0 (hb_iota 0 10 3) = Some 4
      /\ exhausts_in (hb_iota 0 10 3) 4
      /\ hb_sink 5 [] (hb_iota 0 10 3) = Some [0; 3; 6; 9])
  /\ (iota_int_end (hb_iota_int 0 10 3) = 12
      /\ __len__ 0 (hb_iota_int 0 10 3) = Some 4
      /\ exhausts_in (hb_iota_int 0 10 3) 4
      /\ hb_sink 5 [] (hb_iota_int 0 10 3) = Some [0; 3; 6; 9]).
Proof.
  split; [|split; [|split]].
  - intros start end_ step Hse He Hs Hb e it n.
    destruct (iota_bound_multiple start end_ step) as [Hmul Hn];
      try assumption.
    fold e in Hmul, Hn.
    assert (Hex : exhausts_in it n) by (apply iota_exhausts; assumption).
    repeat apply conj.
    + unfold it, hb_iota, new_hb_iota_iter_t; simpl.
      now apply end_for_normalizes.
    + pose proof (iota_slack start end_ step Hs). unfold e; lia.
    + rewrite Hmul. apply Z.mod_mul; lia.
    + now apply iota_bound_least.
    + intros k fuel Hk.
      destruct (iota_len_exact start end_ step Hse He Hs Hb k fuel)
        as (Hl & Hm & Hd); [unfold n, e in *; lia|].
      fold e it in Hl, Hm, Hd.
      repeat split; try assumption. rewrite Hd. unfold n, e in *. lia.
    + exact Hex.
    + unfold it, n.
      rewrite iota_advance by (try assumption; unfold e in *; lia).
      cbn [iota_v]. rewrite Z2Nat.id by exact Hn. lia.
    + intros fuel Hf. now rewrite (hb_sink_items it n Hex).
    + now apply iota_items.
    + now apply iota_items_below_end.
    + intros k Hk Hlt. now apply iota_items_complete.
  - intros start end_ step Hse Hs Hb Hd e it n.
    destruct (bound_multiple_Z start end_ step) as [Hmul Hn]; try lia.
    fold e in Hmul, Hn.
    assert (Hex : exhausts_in it n)
      by (apply iota_int_exhausts; assumption).
    repeat apply conj.
    + unfold it, hb_iota_int, new_hb_iota_int_iter_t; simpl.
      now apply end_for_int_normalizes.
    + pose proof (iota_slack start end_ step ltac:(lia)). unfold e; lia.
    + rewrite Hmul. apply Z.mod_mul; lia.
    + intros x Hx Hm. apply bound_least_Z; try assumption; lia.
    + intros k fuel Hk.
      destruct (iota_int_len_exact start end_ step Hse Hs Hb Hd k fuel)
        as (Hl & Hm & Hdiv); [unfold n, e in *; lia|].
      fold e it in Hl, Hm, Hdiv.
      repeat split; try assumption. rewrite Hdiv. unfold n, e in *. lia.
    + exact Hex.
    + unfold it, n.
      rewrite iota_int_advance by (try assumption; unfold e in *; lia).
      cbn [iota_int_v]. rewrite Z2Nat.id by exact Hn. lia.
    + intros fuel Hf. now rewrite (hb_sink_items it n Hex).
    + now apply iota_int_items.
    + now apply iota_int_items_below_end.
    + intros k Hk Hlt. now apply iota_int_items_complete.
  - repeat split. repeat constructor.
  - repeat split. repeat constructor.
Qed.

Lemma iota_end_normalized_witness :
  (iota_end (hb_iota 1 8 3) = 10
   /\ exhausts_in (hb_iota 1 8 3) 3
   /\ items 3 (hb_iota 1 8 3) = [1; 4; 7])
  /\ (iota_int_end (hb_iota_int (-5) 5 3) = 7
      /\ __len__ 0 (hb_iota_int (-5) 5 3) = Some 4
      /\ exhausts_in (hb_iota_int (-5) 5 3) 4
      /\ items 4 (hb_iota_int (-5) 5 3) = [-5; -2; 1; 4]).
Proof.
  destruct iota_end_normalized as (Hgen & Hint & _).
  split.
  - destruct (Hgen 1 8 3) as ((Hend & _) & _ & Hex & _ & _ & Hit & _).
    + lia.
    + reflexivity.
    + lia.
    + reflexivity.
    + split; [exact Hend | split; [exact Hex | exact Hit]].
  - destruct (Hint (-5) 5 3)
      as ((Hend & _) & Hlen & Hex & _ & _ & Hit & _).
    + split; [discriminate | lia].
    + split; [lia | discriminate].
    + discriminate.
    + discriminate.
    + split; [exact Hend|]. split; [exact (proj1 (Hlen 0%nat 0%nat ltac:(lia)))|].
      split; [exact Hex | exact Hit].
Defined.

(** ** [end()] at the exhausted position *)

Lemma wrap_range (x : Z) : 0 <= wrap x < UINT_MODULUS.
Proof. unfold wrap. apply Z.mod_pos_bound. reflexivity. Qed.

Lemma enumerate_advance_wraps {Iter T : Type} {I : hb_iter_t Iter T}
      (k : nat) :
  forall (i : Z) (it : Iter),
    0 <= i < UINT_MODULUS ->
    advance k (mk_enumerate_iter i it)
    = mk_enumerate_iter (wrap (i + Z.of_nat k)) (advance k it).
Proof.
  unfold advance.
  induction k as [|k IH]; intros i it Hi.
  - simpl. rewrite Z.add_0_r, wrap_small by exact Hi. reflexivity.
  - change (repeat_op __next__ (S k) (mk_enumerate_iter i it))
      with (repeat_op __next__ k
              (mk_enumerate_iter (wrap (i + 1)) (__next__ it))).
    rewrite IH by apply wrap_range. rewrite wrap_add_l.
    f_equal. f_equal. lia.
Qed.

Lemma coherent_plus_len {Iter T : Type} {I : hb_iter_t Iter T}
      (fuel : nat) (it : Iter) (n : nat) :
  random_access_coherent fuel it n ->
  plus_len fuel it = Some (advance n it).
Proof.
  intros [Hlen Hfw]. unfold plus_len. rewrite Hlen. simpl.
  now rewrite Hfw.
Qed.

Lemma zip_coherent {A B TA TB : Type}
      {IA : hb_iter_t A TA} {IB : hb_iter_t B TB}
      (fuel : nat) (a : A) (b : B) (n m : nat) :
  random_access_coherent fuel a n -> random_access_coherent fuel b m ->
  random_access_coherent fuel (hb_zip a b) (Nat.min n m).
Proof.
  intros [Hla Hfa] [Hlb Hfb]. split.
  - simpl. rewrite Hla, Hlb. unfold hb_min. f_equal. lia.
  - intros k Hk. rewrite zip_advance. simpl.
    rewrite Hfa, Hfb by lia. reflexivity.
Qed.


